(** * ui.resource.Image of timestep: a shallow embedding

    The embedded program is [src/ui/resource/Image.js]: the region map of an
    image, the process-wide image cache, the load callbacks ([imageOnLoad],
    [_setSrcImg], [_onLoad]), the accessors, and the render dispatcher with its
    filter pipeline.

    Conventions of the embedding.
    - A JavaScript number is an IEEE 754 binary64, so numbers are Rocq's
      primitive [float]s; [===] on numbers is [PrimFloat.eqb].
    - Objects that the code compares by identity (DOM images, canvases, Image
      instances) live in stores indexed by [nat]; a reference is an index.
    - Side effects that leave the program (logger calls, PubSub emits,
      notifier deliveries, decodes started by assigning [img.src]) are
      appended to the [trace] of the world, oldest first; the calls queued
      by [setTimeout] wait in its [timers].
    - Canvas calls made by [render] are returned as a list of [CanvasOp],
      oldest first, together with the value returned or the string thrown. *)

From Stdlib Require Import Floats Bool.
From stdpp Require Import base option gmap strings list relations.

(** ** JavaScript values used by the code *)

Module Js.

(** [!v] is true of a number exactly for [0], [-0] and [NaN]. *)
Definition truthy (v : float) : bool :=
  negb (PrimFloat.is_zero v || PrimFloat.is_nan v).

(** [a === b] on numbers. *)
Definition seq (a b : float) : bool := PrimFloat.eqb a b.

(** [a !== b] on numbers. *)
Definition sne (a b : float) : bool := negb (PrimFloat.eqb a b).

(** [v || d] where [v] is a number or [undefined] ([None]). *)
Definition or_else (v : option float) (d : float) : float :=
  match v with
  | Some n => if truthy n then n else d
  | None => d
  end.

(** [ToNumber v]: [undefined] converts to [NaN]. *)
Definition to_number (v : option float) : float :=
  match v with
  | Some n => n
  | None => nan
  end.

(** [v <= n] where [v] is a number or [undefined]. *)
Definition le (v : option float) (n : float) : bool :=
  PrimFloat.leb (to_number v) n.

(** Truthiness of a string: every string but the empty one.  A missing
    ([undefined]) url argument is represented by the empty string, which
    the code cannot tell apart from it: it only tests urls for truthiness
    and uses truthy ones as keys. *)
Definition truthy_str (s : string) : bool :=
  match s with
  | EmptyString => false
  | String _ _ => true
  end.

(** [s || d] on strings. *)
Definition or_else_str (s : option string) (d : string) : string :=
  match s with
  | Some v => if truthy_str v then v else d
  | None => d
  end.

End Js.

#[global] Instance float_inhabited : Inhabited float := populate 0%float.

(** ** The completion notifier *)

(** Modelled from the spec: [event.Callback] is imported by Image.js and is
    not part of the embedded file.  The spec describes it as a one-shot (per
    load attempt), multi-subscriber callback aggregator: subscribers
    registered before the notifier fires are called when it fires; one
    registered after it fired is called at once with the arguments it fired
    with; firing twice delivers once; [reset] starts a new attempt. *)
Module Callback.

Record t (A S : Type) : Type := mk {
  fired_ : bool;
  args_ : option A;
  run_ : list S
}.
Arguments mk {A S} _ _ _.
Arguments fired_ {A S} _.
Arguments args_ {A S} _.
Arguments run_ {A S} _.

Section Ops.
Context {A S : Type}.

(** [new Callback()] *)
Definition new : t A S := mk false None [].

(** [cb.fired()] *)
Definition fired (c : t A S) : bool := fired_ c.

(** [cb.reset()] *)
Definition reset (c : t A S) : t A S := mk false None (run_ c).

(** [cb.fire(a)]: the new notifier and the subscribers to call with [a]. *)
Definition fire (a : A) (c : t A S) : t A S * list S :=
  if fired_ c then (c, []) else (mk true (Some a) [], run_ c).

(** [cb.run(s)]: the new notifier and, when it had fired, the arguments
    to call [s] with at once. *)
Definition run (s : S) (c : t A S) : t A S * option A :=
  if fired_ c then (c, args_ c) else (mk false None (run_ c ++ [s]), None).

End Ops.

End Callback.

(** ** The region map ([ImageMap]) *)

(** The fields assigned by [ImageMap.init], and [scale], which [getWidth] and
    [getHeight] read but [init] never assigns: it is [undefined] ([None])
    until the resource loader sets it. *)
Record ImageMap : Type := mkImageMap {
  map_url : string;
  map_x : float;
  map_y : float;
  map_width : float;
  map_height : float;
  map_marginTop : float;
  map_marginRight : float;
  map_marginBottom : float;
  map_marginLeft : float;
  map_scale : option float
}.

(** [new ImageMap(parentImage, x, y, width, height, marginTop, marginRight,
    marginBottom, marginLeft, url)] *)
Definition ImageMap_init (x y width height marginTop marginRight marginBottom
    marginLeft : float) (url : string) : ImageMap :=
  {| map_url := url; map_x := x; map_y := y;
     map_width := width; map_height := height;
     map_marginTop := marginTop; map_marginRight := marginRight;
     map_marginBottom := marginBottom; map_marginLeft := marginLeft;
     map_scale := None |}.

Definition set_map_url (v : string) (m : ImageMap) : ImageMap :=
  mkImageMap v (map_x m) (map_y m) (map_width m) (map_height m)
    (map_marginTop m) (map_marginRight m) (map_marginBottom m)
    (map_marginLeft m) (map_scale m).
Definition set_map_x (v : float) (m : ImageMap) : ImageMap :=
  mkImageMap (map_url m) v (map_y m) (map_width m) (map_height m)
    (map_marginTop m) (map_marginRight m) (map_marginBottom m)
    (map_marginLeft m) (map_scale m).
Definition set_map_y (v : float) (m : ImageMap) : ImageMap :=
  mkImageMap (map_url m) (map_x m) v (map_width m) (map_height m)
    (map_marginTop m) (map_marginRight m) (map_marginBottom m)
    (map_marginLeft m) (map_scale m).
Definition set_map_width (v : float) (m : ImageMap) : ImageMap :=
  mkImageMap (map_url m) (map_x m) (map_y m) v (map_height m)
    (map_marginTop m) (map_marginRight m) (map_marginBottom m)
    (map_marginLeft m) (map_scale m).
Definition set_map_height (v : float) (m : ImageMap) : ImageMap :=
  mkImageMap (map_url m) (map_x m) (map_y m) (map_width m) v
    (map_marginTop m) (map_marginRight m) (map_marginBottom m)
    (map_marginLeft m) (map_scale m).
Definition set_map_marginTop (v : float) (m : ImageMap) : ImageMap :=
  mkImageMap (map_url m) (map_x m) (map_y m) (map_width m) (map_height m)
    v (map_marginRight m) (map_marginBottom m) (map_marginLeft m)
    (map_scale m).
Definition set_map_marginRight (v : float) (m : ImageMap) : ImageMap :=
  mkImageMap (map_url m) (map_x m) (map_y m) (map_width m) (map_height m)
    (map_marginTop m) v (map_marginBottom m) (map_marginLeft m)
    (map_scale m).
Definition set_map_marginBottom (v : float) (m : ImageMap) : ImageMap :=
  mkImageMap (map_url m) (map_x m) (map_y m) (map_width m) (map_height m)
    (map_marginTop m) (map_marginRight m) v (map_marginLeft m)
    (map_scale m).
Definition set_map_marginLeft (v : float) (m : ImageMap) : ImageMap :=
  mkImageMap (map_url m) (map_x m) (map_y m) (map_width m) (map_height m)
    (map_marginTop m) (map_marginRight m) (map_marginBottom m) v
    (map_scale m).

(** ** Surfaces, images and the world *)

(** What the completion notifier of an Image is fired with:
    [fire({NoImage: true})] or [fire(null, this)]. *)
Inductive Payload : Type :=
| NoImage
| Loaded.

(** A source surface: a DOM image or a canvas.  [s___cb] is the [__cb]
    property that [_setSrcImg] attaches; its subscribers are the Image
    instances whose closure [function (err) { this._onLoad(err, img); }]
    waits on the surface, and it is fired with the error status. *)
Record Surface : Type := mkSurface {
  s_width : float;
  s_height : float;
  s_src : string;
  s_isCanvas : bool;
  s_destroy : bool;
  s___cb : option (Callback.t bool nat)
}.

(** [new Image()] of the DOM: no size, no source, no [__cb]. *)
Definition blank_surface : Surface :=
  mkSurface 0%float 0%float "" false false None.

#[global] Instance surface_inhabited : Inhabited Surface :=
  populate blank_surface.

(** An instance of the exported class.  Subscribers of [_cb] are the
    callbacks registered through [doOnLoad], named by a number. *)
Record Image : Type := mkImage {
  _cb : Callback.t Payload nat;
  _map : ImageMap;
  _originalURL : string;
  _scale : float;
  _isError : bool;
  _srcImg : option nat
}.

Definition blank_image : Image :=
  mkImage Callback.new
    (ImageMap_init 0%float 0%float (-1)%float (-1)%float
       0%float 0%float 0%float 0%float "")
    "" 1%float false None.

#[global] Instance image_inhabited : Inhabited Image := populate blank_image.

Definition set__cb (v : Callback.t Payload nat) (i : Image) : Image :=
  mkImage v (_map i) (_originalURL i) (_scale i) (_isError i) (_srcImg i).
Definition set__map (v : ImageMap) (i : Image) : Image :=
  mkImage (_cb i) v (_originalURL i) (_scale i) (_isError i) (_srcImg i).
Definition set__isError (v : bool) (i : Image) : Image :=
  mkImage (_cb i) (_map i) (_originalURL i) (_scale i) v (_srcImg i).
Definition set__srcImg (v : option nat) (i : Image) : Image :=
  mkImage (_cb i) (_map i) (_originalURL i) (_scale i) (_isError i) v.

(** Effects that leave the program. *)
Inductive Event : Type :=
| EvLogError (url : string)
| EvLogWarn
| EvFire (this : nat) (p : Payload) (subscribers : list nat)
| EvCall (this : nat) (p : Payload) (subscriber : nat)
| EvEmit (this : nat) (signal : string)
| EvDecode (img : nat) (url : string)
| EvDestroy (img : nat)
| EvDeleteTexture (url : string)
| EvInherited (url : string).

(** A pending [setTimeout(bind(img, imageOnLoad, success, evt, failCount), 0)]. *)
Record Timer : Type := mkTimer {
  t_img : nat;
  t_success : bool;
  t_failCount : float
}.

Record World : Type := mkWorld {
  heap : gmap nat Surface;
  images : gmap nat Image;
  ImageCache : gmap string nat;
  timers : list Timer;
  trace : list Event
}.

Definition empty_world : World := mkWorld ∅ ∅ ∅ [] [].

Definition set_heap (v : gmap nat Surface) (w : World) : World :=
  mkWorld v (images w) (ImageCache w) (timers w) (trace w).
Definition set_images (v : gmap nat Image) (w : World) : World :=
  mkWorld (heap w) v (ImageCache w) (timers w) (trace w).
Definition set_ImageCache (v : gmap string nat) (w : World) : World :=
  mkWorld (heap w) (images w) v (timers w) (trace w).
Definition set_timers (v : list Timer) (w : World) : World :=
  mkWorld (heap w) (images w) (ImageCache w) v (trace w).
Definition log (e : Event) (w : World) : World :=
  mkWorld (heap w) (images w) (ImageCache w) (timers w) (trace w ++ [e]).

Definition getImage (this : nat) (w : World) : Image := images w !!! this.
Definition getSurface (img : nat) (w : World) : Surface := heap w !!! img.
Definition updImage (this : nat) (f : Image → Image) (w : World) : World :=
  set_images (<[this := f (getImage this w)]> (images w)) w.
Definition updSurface (img : nat) (f : Surface → Surface) (w : World) : World :=
  set_heap (<[img := f (getSurface img w)]> (heap w)) w.

(** The names that every plain object inherits from [Object.prototype]
    (ECMAScript 5.1, 15.2.4 and annex B): the image cache is a plain [{}],
    so a read [ImageCache[url]] at one of them is answered even when the
    cache holds no such url, by a function or, for [__proto__], by
    [Object.prototype] itself. *)
Definition Object_prototype_member (url : string) : bool :=
  bool_decide
    (url ∈ ["constructor"; "hasOwnProperty"; "isPrototypeOf";
            "propertyIsEnumerable"; "toLocaleString"; "toString"; "valueOf";
            "__proto__"; "__defineGetter__"; "__defineSetter__";
            "__lookupGetter__"; "__lookupSetter__"]).

(** What [_setSrcImg] has in [img] once it has looked in the image cache: a
    surface, nothing, or a member of [Object.prototype]. *)
Inductive Found : Type :=
| Object (img : nat)
| Nothing
| Member.

(** The read [ImageCache[url]]: the entries of [ImageCache w] are the own
    properties of the cache object.  A write at ["__proto__"] replaces the
    prototype of the cache object instead of adding a property; the read at
    ["__proto__"] then answers the surface written, as the entry does here,
    but reads at the names of the members of a DOM image are answered
    through that surface from then on, which the model does not follow. *)
Definition read_ImageCache (url : string) (w : World) : Found :=
  match ImageCache w !! url with
  | Some img => Object img
  | None => if Object_prototype_member url then Member else Nothing
  end.

(** [exports.__clearCache__] *)
Definition __clearCache__ (w : World) : World := set_ImageCache ∅ w.

(** ** The environment of the module *)

(** What [Image.get(url)], the base64 preload cache of the native platform,
    answers: an image that is already loaded, raw base64 to load from, or
    nothing. *)
Inductive Preload : Type :=
| PreImage (img : nat)
| PreURL (b64 : string)
| PreAbsent.

(** What [getImageData] of a 2D context returns: the pixel data is the
    platform's, only its dimensions are read by the code. *)
Record ImageData : Type := mkImageData {
  data_width : float;
  data_height : float
}.

(** The collaborators of Image.js that are not part of the embedded file.
    - [updateImageMap] is [resourceLoader._updateImageMap(map, url, x, y, w,
      h)], which the code calls to fill the region map; it is taken as a
      parameter.
    - [isNative] is [GLOBAL.NATIVE && !device.isNativeSimulator].
    - [Image_get] is [Image.get], present on some platforms only.
    - [hasDeleteTexture] is [NATIVE.gl && NATIVE.gl.deleteTexture].
    - [hasDocument] is [GLOBAL.document && document.createElement].
    - [ctx_getImageData] is [getImageData] of the scratch 2D context. *)
Record Env : Type := mkEnv {
  updateImageMap : ImageMap → option string → option float → option float →
                   option float → option float → ImageMap;
  isNative : bool;
  Image_get : option (string → Preload);
  hasDeleteTexture : bool;
  hasDocument : bool;
  ctx_getImageData : float → float → float → float → ImageData
}.

(** The options of the constructor. *)
Record Opts : Type := mkOpts {
  o_url : option string;
  o_scale : option float;
  o_srcImage : option nat;
  o_forceReload : bool;
  o_sourceX : option float;
  o_sourceY : option float;
  o_sourceW : option float;
  o_sourceH : option float
}.

(** ** Loading *)

(** [this._cb.fire(p)] *)
Definition notify (this : nat) (p : Payload) (w : World) : World :=
  let '(cb, subs) := Callback.fire p (_cb (getImage this w)) in
  if Callback.fired (_cb (getImage this w)) then w
  else log (EvFire this p subs) (updImage this (set__cb cb) w).

(** [img && img !== srcImg] *)
Definition superseded (img : option nat) (srcImg : option nat) : bool :=
  match img with
  | Some i => negb (bool_decide (srcImg = Some i))
  | None => false
  end.

(** The dimensions that [_onLoad] leaves in the region map and in the source
    image: [(map.width, map.height, srcImg.width, srcImg.height)]. *)
Definition resolve_size (scale : float) (map : ImageMap) (srcImg : Surface)
  : float * float * float * float :=
  if Js.sne scale 1 &&
     (Js.sne (map_width map) (-1) || Js.sne (map_height map) (-1))
  then
    let width :=
      if Js.seq (map_width map) (-1)
      then (s_width srcImg * map_height map / s_height srcImg)%float
      else map_width map in
    let height :=
      if Js.seq (map_height map) (-1)
      then (s_height srcImg * width / s_width srcImg)%float
      else map_height map in
    (width, height, width, height)
  else
    let width :=
      if Js.seq (map_width map) (-1) then s_width srcImg else map_width map in
    let height :=
      if Js.seq (map_height map) (-1) then s_height srcImg
      else map_height map in
    (width, height, s_width srcImg, s_height srcImg).

(** [this._onLoad(err, img)] *)
Definition _onLoad (this : nat) (err : bool) (img : option nat) (w : World)
  : World :=
  let map := _map (getImage this w) in
  let srcImg := _srcImg (getImage this w) in
  if superseded img srcImg then w
  else if err then
    let w := log (EvLogError (map_url map)) w in
    let w := updImage this (set__isError true) w in
    notify this NoImage w
  else
    let w := updImage this (set__isError false) w in
    match srcImg with
    | None => w (* [srcImg.width] of [undefined] throws; [_setSrcImg] assigns
                   [_srcImg] before it registers any completion *)
    | Some s =>
      let src := getSurface s w in
      let w := if Js.seq (s_width src) 0 then log EvLogWarn w else w in
      let '(mw, mh, sw, sh) := resolve_size (_scale (getImage this w)) map src in
      let w := updSurface s (fun x =>
                 mkSurface sw sh (s_src x) (s_isCanvas x) (s_destroy x)
                   (s___cb x)) w in
      let w := updImage this (fun i =>
                 set__map (set_map_url (s_src src)
                            (set_map_height mh (set_map_width mw (_map i)))) i)
                 w in
      notify this Loaded w
    end.

(** [img.__cb.fire(err)]: every closure registered on the surface runs
    [this._onLoad(err, img)] for its own [this]. *)
Definition fire_surface (img : nat) (err : bool) (w : World) : World :=
  match s___cb (getSurface img w) with
  | None => w
  | Some cb =>
    let '(cb', subs) := Callback.fire err cb in
    let w := updSurface img (fun x =>
               mkSurface (s_width x) (s_height x) (s_src x) (s_isCanvas x)
                 (s_destroy x) (Some cb')) w in
    foldl (fun w this => _onLoad this err (Some img) w) w subs
  end.

(** [setTimeout(f, 0)] *)
Definition setTimeout (t : Timer) (w : World) : World :=
  set_timers (timers w ++ [t]) w.

(** [imageOnLoad.call(img, success, evt, failCount)] *)
Definition imageOnLoad (img : nat) (success : bool) (failCount : option float)
    (w : World) : World :=
  if success && negb (Js.truthy (s_width (getSurface img w))) then
    if Js.le failCount 3 then
      setTimeout (mkTimer img success (Js.or_else failCount 0 + 1)%float) w
    else fire_surface img false w
  else fire_surface img (negb success) w.

(** The DOM fires [load] ([success = true]) or [error] on a surface: the
    listeners are [bind(img, imageOnLoad, true)] and [bind(img, imageOnLoad,
    false)], called with the event alone, so [failCount] is [undefined]. *)
Definition dom_event (img : nat) (success : bool) (w : World) : World :=
  imageOnLoad img success None w.

(** One scheduling tick: the oldest pending timer runs. *)
Definition tick (w : World) : World :=
  match timers w with
  | [] => w
  | t :: rest =>
    imageOnLoad (t_img t) (t_success t) (Some (t_failCount t))
      (set_timers rest w)
  end.

(** The platform fills in the size of a decoded surface. *)
Definition platform_set_size (img : nat) (width height : float) (w : World)
  : World :=
  updSurface img (fun x =>
    mkSurface width height (s_src x) (s_isCanvas x) (s_destroy x) (s___cb x)) w.

(** [new Image()]: a blank surface at an index that the heap does not hold
    yet. *)
Definition new_Image (w : World) : nat * World :=
  let img := fresh (dom (heap w)) in
  (img, set_heap (<[img := blank_surface]> (heap w)) w).

Section WithEnv.

Variable env : Env.

(** [this._setSrcImg(img, url, forceReload)].

    When the read of the image cache is answered by a member of
    [Object.prototype], the code takes that member as [img]: it becomes
    [this._srcImg], gets a [__cb] of its own, and [img.addEventListener]
    throws a [TypeError] out of [_setSrcImg] the first time.  The heap of
    this model holds DOM images and canvases only, so the model follows the
    call up to the read and records, with [EvInherited], that it stops
    there: what the call does to the member, and through it to other
    objects, is not part of the model. *)
Definition _setSrcImg (this : nat) (img : option nat) (url : string)
    (forceReload : bool) (w : World) : World :=
  let w := updImage this (fun i => set__cb (Callback.reset (_cb i)) i) w in
  (* if we haven't found an image, look in the image cache *)
  let found :=
    match img with
    | Some i => Object i
    | None =>
      if Js.truthy_str url && negb forceReload then read_ImageCache url w
      else Nothing
    end in
  match found with
  | Member => log (EvInherited url) w
  | _ =>
  let img :=
    match found with
    | Object i => Some i
    | _ => None
    end in
  (* look up the base64 cache *)
  let '(img, url) :=
    match img, forceReload, Image_get env with
    | None, false, Some get =>
      match get url with
      | PreImage b64 => (Some b64, url)
      | PreURL b64 => if Js.truthy_str b64 then (None, b64) else (None, url)
      | PreAbsent => (None, url)
      end
    | _, _, _ => (img, url)
    end in
  let w :=
    if forceReload then
      let w :=
        match img with
        | Some i => if s_destroy (getSurface i w) then log (EvDestroy i) w
                    else w
        | None => w
        end in
      if Js.truthy_str url && hasDeleteTexture env
      then log (EvDeleteTexture url) w else w
    else w in
  (* create an image if we don't have one *)
  let '(img, w) :=
    match img with
    | Some i => (i, w)
    | None => new_Image w
    end in
  let w := updImage this (set__srcImg (Some img)) w in
  if s_isCanvas (getSurface img w) then _onLoad this false (Some img) w
  else
    let w :=
      match s___cb (getSurface img w) with
      | Some _ => w
      | None =>
        let w := updSurface img (fun x =>
                   mkSurface (s_width x) (s_height x) (s_src x)
                     (s_isCanvas x) (s_destroy x) (Some Callback.new)) w in
        let w := if Js.truthy_str url
                 then set_ImageCache (<[url := img]> (ImageCache w)) w
                 else w in
        if negb (Js.truthy_str (s_src (getSurface img w)))
           && Js.truthy_str url
        then
          let w := updSurface img (fun x =>
                     mkSurface (s_width x) (s_height x) url (s_isCanvas x)
                       (s_destroy x) (s___cb x)) w in
          let w := updImage this (fun i =>
                     set__map (set_map_url url (_map i)) i) w in
          log (EvDecode img url) w
        else w
      end in
    (* img.__cb.run(this, function (err) { this._onLoad(err, img); }) *)
    match s___cb (getSurface img w) with
    | None => w
    | Some cb =>
      let '(cb', now) := Callback.run this cb in
      let w := updSurface img (fun x =>
                 mkSurface (s_width x) (s_height x) (s_src x) (s_isCanvas x)
                   (s_destroy x) (Some cb')) w in
      match now with
      | Some err => _onLoad this err (Some img) w
      | None => w
      end
    end
  end.

(** [new Image(opts)] stored as instance [this]. *)
Definition init (this : nat) (opts : Opts) (w : World) : World :=
  let url := Js.or_else_str (o_url opts) "" in
  let map :=
    updateImageMap env
      (ImageMap_init 0 0 (-1) (-1) 0 0 0 0 url)
      (o_url opts) (o_sourceX opts) (o_sourceY opts) (o_sourceW opts)
      (o_sourceH opts) in
  let w := set_images
             (<[this := mkImage Callback.new map url
                          (Js.or_else (o_scale opts) 1) false None]>
                (images w)) w in
  _setSrcImg this (o_srcImage opts) (map_url map) (o_forceReload opts) w.

(** [this.setSource(srcImg)]: [_setSrcImg(srcImg)], no url, no reload. *)
Definition setSource (this : nat) (srcImg : option nat) (w : World) : World :=
  _setSrcImg this srcImg "" false w.

(** [this.setURL(url, forceReload)] *)
Definition setURL (this : nat) (url : string) (forceReload : bool)
    (w : World) : World :=
  let w := updImage this (fun i =>
             set__map (updateImageMap env (_map i) (Some url)
                         None None None None) i) w in
  _setSrcImg this None (map_url (_map (getImage this w))) forceReload w.

End WithEnv.

(** ** Accessors and mutators *)

Definition getSource (this : Image) : option nat := _srcImg this.
Definition getURL (this : Image) : string := map_url (_map this).
Definition getOriginalURL (this : Image) : string := _originalURL this.
Definition getSourceX (this : Image) : float := map_x (_map this).
Definition getSourceY (this : Image) : float := map_y (_map this).
Definition getSourceWidth (this : Image) : float := map_width (_map this).
Definition getSourceHeight (this : Image) : float := map_height (_map this).
Definition getMap (this : Image) : ImageMap := _map this.

(** [this._srcImg.width] and [this._srcImg.height], read through the
    reference. *)
Definition getOrigWidth (this : nat) (w : World) : option float :=
  s ← _srcImg (getImage this w); Some (s_width (getSurface s w)).
Definition getOrigHeight (this : nat) (w : World) : option float :=
  s ← _srcImg (getImage this w); Some (s_height (getSurface s w)).

Definition setSourceX (this : nat) (x : float) (w : World) : World :=
  updImage this (fun i => set__map (set_map_x x (_map i)) i) w.
Definition setSourceY (this : nat) (y : float) (w : World) : World :=
  updImage this (fun i => set__map (set_map_y y (_map i)) i) w.
Definition setSourceWidth (this : nat) (v : float) (w : World) : World :=
  updImage this (fun i => set__map (set_map_width v (_map i)) i) w.
Definition setSourceHeight (this : nat) (h : float) (w : World) : World :=
  updImage this (fun i => set__map (set_map_height h (_map i)) i) w.
Definition setMarginTop (this : nat) (n : float) (w : World) : World :=
  updImage this (fun i => set__map (set_map_marginTop n (_map i)) i) w.
Definition setMarginRight (this : nat) (n : float) (w : World) : World :=
  updImage this (fun i => set__map (set_map_marginRight n (_map i)) i) w.
Definition setMarginBottom (this : nat) (n : float) (w : World) : World :=
  updImage this (fun i => set__map (set_map_marginBottom n (_map i)) i) w.
Definition setMarginLeft (this : nat) (n : float) (w : World) : World :=
  updImage this (fun i => set__map (set_map_marginLeft n (_map i)) i) w.

(** [this.getWidth()] *)
Definition getWidth (this : Image) : float :=
  let map := _map this in
  ((if Js.seq (map_width map) (-1) then 0
    else map_width map + map_marginLeft map + map_marginRight map)
   / Js.to_number (map_scale map))%float.

(** [this.getHeight()] *)
Definition getHeight (this : Image) : float :=
  let map := _map this in
  ((if Js.seq (map_height map) (-1) then 0
    else map_height map + map_marginTop map + map_marginBottom map)
   / Js.to_number (map_scale map))%float.

(** [this.setMap] and [this.setBounds] *)
Definition setBounds (this : nat) (x y width height : float)
    (marginTop marginRight marginBottom marginLeft : option float) (w : World)
  : World :=
  let w := updImage this (fun i =>
    set__map
      (mkImageMap (map_url (_map i)) x y width height
         (Js.or_else marginTop 0) (Js.or_else marginRight 0)
         (Js.or_else marginBottom 0) (Js.or_else marginLeft 0)
         (map_scale (_map i))) i) w in
  log (EvEmit this "changeBounds") w.

Definition setMap := setBounds.

(** [this.doOnLoad(cb)]: registers [cb], or calls it at once when the
    notifier has fired. *)
Definition doOnLoad (this : nat) (cb : nat) (w : World) : World :=
  let '(c, now) := Callback.run cb (_cb (getImage this w)) in
  let w := updImage this (set__cb c) w in
  match now with
  | Some p => log (EvCall this p cb) w
  | None => w
  end.

Definition isError (this : Image) : bool := _isError this.

Definition isLoaded (this : Image) : bool :=
  negb (_isError this) && Callback.fired (_cb this).

Definition isReady := isLoaded.

(** [this.setImageData(data)]: the body is empty. *)
Definition setImageData {A : Type} (this : nat) (data : A) (w : World)
  : World := w.

(** ** Rendering *)

(** The 2D contexts the code draws on: the one of the caller, and the two
    scratch contexts of the module ([_filterCtx] of [_filterCanvas],
    [_imgDataCtx] of [_imgDataCanvas]), which are created on first use and
    kept. *)
Inductive Target : Type :=
| CallerCtx (id : nat)
| FilterCtx
| ImgDataCtx.

(** What a blit reads from: [this._srcImg] or [_filterCanvas]. *)
Inductive Source : Type :=
| SrcImg (img : option nat)
| SrcFilterCanvas.

(** The value of [filter.get()]. *)
Record Color : Type := mkColor {
  c_r : float;
  c_g : float;
  c_b : float;
  c_a : float
}.

(** Calls on a canvas or its context.  [OpFillStyle] stands for the
    assignment of the string ["rgba(r,g,b,a)"] built from the color. *)
Inductive CanvasOp : Type :=
| OpSize (ctx : Target) (width height : float)
| OpComposite (ctx : Target) (op : string)
| OpFillStyle (ctx : Target) (color : Color)
| OpFillRect (ctx : Target) (x y width height : float)
| OpClear (ctx : Target)
| OpPutImageData (ctx : Target) (data : ImageData) (mr mg mb : float)
    (x y : float)
| OpDrawImage (ctx : Target) (src : Source)
    (srcX srcY srcW srcH destX destY destW destH : float).

(** A computation that calls canvases and returns or throws. *)
Inductive Result (A : Type) : Type :=
| Ok (a : A)
| Throw (e : string).
Arguments Ok {A} a.
Arguments Throw {A} e.

Definition Draw (A : Type) : Type := list CanvasOp * Result A.

Definition ret {A : Type} (a : A) : Draw A := ([], Ok a).
Definition throw {A : Type} (e : string) : Draw A := ([], Throw e).
Definition call (o : CanvasOp) : Draw unit := ([o], Ok tt).
Definition bind {A B : Type} (m : Draw A) (k : A → Draw B) : Draw B :=
  match m with
  | (ops, Ok a) => let '(ops', r) := k a in (ops ++ ops', r)
  | (ops, Throw e) => (ops, Throw e)
  end.

Notation "x <~ m ;; k" := (bind m (fun x => k))
  (at level 62, m at next level, right associativity).
Notation "m ;;; k" := (bind m (fun _ => k))
  (at level 62, right associativity).

(** The descriptors of [ctx.filters]: the colors that [get()] returns and
    the mask images that [getMask()] returns. *)
Record Filters : Type := mkFilters {
  LinearAdd : option Color;
  Tint : option Color;
  Multiply : option Color;
  NegativeMask : option Image;
  PositiveMask : option Image
}.

(** A 2D context as [render] sees it. *)
Record Context : Type := mkContext {
  ctx_target : Target;
  ctx_filters : option Filters
}.

(** [arguments[i]] of a call [render(ctx, a1, a2, ...)] with [args] the
    numbers after [ctx]. *)
Definition argument (args : list float) (i : nat) : option float :=
  match i with
  | O => None
  | S j => args !! j
  end.

(** [this._renderImage(ctx, ...)]: the blit; what [drawImage] throws is
    caught and dropped. *)
Definition _renderImage (ctx : Target) (srcImg : Source)
    (srcX srcY srcW srcH destX destY destW destH : float) : Draw unit :=
  call (OpDrawImage ctx srcImg srcX srcY srcW srcH destX destY destW destH).

(** The body of [this.render(ctx, ...)].  [filters] is the filter stage that
    runs when [!isNative && ctx.filters] holds, and [None] otherwise. *)
Definition render_body
    (filters : option (float → float → float → float → Draw Source))
    (this : Image) (ctx : Target) (args : list float) : Draw unit :=
  if negb (Callback.fired (_cb this)) then ret tt
  else
    let map := _map this in
    let srcImg := SrcImg (_srcImg this) in
    let args1 := argument args 1 in
    let args2 := argument args 2 in
    let args3 := argument args 3 in
    let args4 := argument args 4 in
    let args5 := argument args 5 in
    let args6 := argument args 6 in
    let args7 := argument args 7 in
    let args8 := argument args 8 in
    let srcX := map_x map in
    let srcY := map_y map in
    let srcW := map_width map in
    let srcH := map_height map in
    let destX := match args5 with Some v => v | None => Js.or_else args1 0 end in
    let destY := match args6 with Some v => v | None => Js.or_else args2 0 end in
    let destW := match args7 with Some v => v | None => Js.or_else args3 0 end in
    let destH := match args8 with Some v => v | None => Js.or_else args4 0 end in
    let '(srcX, srcY, srcW, srcH, destX, destY, destW, destH) :=
      if (S (length args) <? 9)%nat then
        let scaleX :=
          (destW / (map_marginLeft map + map_width map + map_marginRight map))%float in
        let scaleY :=
          (destH / (map_marginTop map + map_height map + map_marginBottom map))%float in
        (srcX, srcY, srcW, srcH,
         (destX + scaleX * map_marginLeft map)%float,
         (destY + scaleY * map_marginTop map)%float,
         (scaleX * map_width map)%float,
         (scaleY * map_height map)%float)
      else
        (Js.to_number args1, Js.to_number args2, Js.to_number args3,
         Js.to_number args4, destX, destY, destW, destH) in
    match filters with
    | Some _applyFilters =>
      result <~ _applyFilters srcX srcY srcW srcH ;;
      match result with
      | SrcFilterCanvas =>
        _renderImage ctx result 0 0 srcW srcH destX destY destW destH
      | SrcImg _ =>
        _renderImage ctx result srcX srcY srcW srcH destX destY destW destH
      end
    | None =>
      _renderImage ctx srcImg srcX srcY srcW srcH destX destY destW destH
    end.

(** [this.render(c, ...)] on a scratch context [c]: the scratch contexts
    carry no filter descriptors, so the filter stage does not substitute
    anything there. *)
Definition render_scratch (this : Image) (ctx : Target) (args : list float)
  : Draw unit :=
  render_body None this ctx args.

Section Rendering.

Variable env : Env.

(** [this._renderFilter(ctx, srcX, srcY, srcW, srcH, color, op)] *)
Definition _renderFilter (this : Image) (srcX srcY srcW srcH : float)
    (color : Color) (op : string) : Draw Source :=
  call (OpSize FilterCtx srcW srcH) ;;;
  call (OpComposite FilterCtx "source-over") ;;;
  render_scratch this FilterCtx [srcX; srcY; srcW; srcH; 0; 0; srcW; srcH]%float ;;;
  call (OpComposite FilterCtx op) ;;;
  call (OpFillStyle FilterCtx color) ;;;
  call (OpFillRect FilterCtx 0 0 srcW srcH) ;;;
  call (OpComposite FilterCtx "destination-in") ;;;
  render_scratch this FilterCtx [srcX; srcY; srcW; srcH; 0; 0; srcW; srcH]%float ;;;
  ret SrcFilterCanvas.

(** [this.getImageData(x, y, width, height)] *)
Definition getImageData (this : Image) (x y width height : option float)
  : Draw ImageData :=
  let map := _map this in
  if negb (hasDocument env) then throw "Not supported"
  else if negb (Js.truthy (map_width map)) || negb (Js.truthy (map_height map))
  then throw "Not loaded"
  else
    let x := Js.or_else x 0 in
    let y := Js.or_else y 0 in
    let width := Js.or_else width (map_width map) in
    let height := Js.or_else height (map_height map) in
    call (OpSize ImgDataCtx width height) ;;;
    call (OpClear ImgDataCtx) ;;;
    render_scratch this ImgDataCtx [x; y; width; height; 0; 0; width; height]%float ;;;
    ret (ctx_getImageData env 0 0 width height).

(** [this._renderMultiply(ctx, srcX, srcY, srcW, srcH, color)]: the loop
    multiplies the three color channels of every pixel by [mr], [mg] and
    [mb]. *)
Definition _renderMultiply (this : Image) (srcX srcY srcW srcH : float)
    (color : Color) : Draw Source :=
  imgData <~ getImageData this (Some srcX) (Some srcY) (Some srcW) (Some srcH) ;;
  let a := c_a color in
  let mr := (1 + a * ((c_r color / 255) - 1))%float in
  let mg := (1 + a * ((c_g color / 255) - 1))%float in
  let mb := (1 + a * ((c_b color / 255) - 1))%float in
  call (OpSize FilterCtx (data_width imgData) (data_height imgData)) ;;;
  call (OpPutImageData FilterCtx imgData mr mg mb 0 0) ;;;
  ret SrcFilterCanvas.

(** [this._renderMask(ctx, srcX, srcY, srcW, srcH, mask, op)] *)
Definition _renderMask (this : Image) (srcX srcY srcW srcH : float)
    (mask : Image) (op : string) : Draw Source :=
  call (OpSize FilterCtx srcW srcH) ;;;
  let srcMaskX := getSourceX mask in
  let srcMaskY := getSourceY mask in
  let srcMaskW := getSourceWidth mask in
  let srcMaskH := getSourceHeight mask in
  call (OpComposite FilterCtx "source-over") ;;;
  render_scratch mask FilterCtx
    [srcMaskX; srcMaskY; srcMaskW; srcMaskH; 0; 0; srcW; srcH]%float ;;;
  call (OpComposite FilterCtx op) ;;;
  render_scratch this FilterCtx [srcX; srcY; srcW; srcH; 0; 0; srcW; srcH]%float ;;;
  ret SrcFilterCanvas.

(** [this._applyFilters(ctx, srcX, srcY, srcW, srcH)] with [filters] the
    value of [ctx.filters]. *)
Definition _applyFilters (this : Image) (filters : Filters)
    (srcX srcY srcW srcH : float) : Draw Source :=
  let resultImg := SrcImg (_srcImg this) in
  let linearAdd := LinearAdd filters in
  let tint := Tint filters in
  let mult := Multiply filters in
  let negMask := NegativeMask filters in
  let posMask := PositiveMask filters in
  (* only one filter can actually be applied at a time *)
  match linearAdd, tint, mult, negMask, posMask with
  | Some color, _, _, _, _ =>
    _renderFilter this srcX srcY srcW srcH color "lighter"
  | None, Some color, _, _, _ =>
    _renderFilter this srcX srcY srcW srcH color "source-over"
  | None, None, Some color, _, _ =>
    _renderMultiply this srcX srcY srcW srcH color
  | None, None, None, Some mask, _ =>
    _renderMask this srcX srcY srcW srcH mask "source-in"
  | None, None, None, None, Some mask =>
    _renderMask this srcX srcY srcW srcH mask "source-out"
  | None, None, None, None, None => ret resultImg
  end.

(** [this.render(ctx, a1, a2, ...)] *)
Definition render (this : Image) (ctx : Context) (args : list float)
  : Draw unit :=
  render_body
    (if negb (isNative env)
     then _applyFilters this <$> ctx_filters ctx
     else None)
    this (ctx_target ctx) args.

End Rendering.

(** ** The filter precedence as the specification words it *)

Inductive FilterKind : Type :=
| AdditiveTint
| SolidTint
| MultiplyFilter
| NegativeMaskFilter
| PositiveMaskFilter.

(** additive-tint > solid-tint > multiply > negative-mask > positive-mask *)
Definition precedence : list FilterKind :=
  [AdditiveTint; SolidTint; MultiplyFilter; NegativeMaskFilter;
   PositiveMaskFilter].

(** The position of a kind in the precedence order, highest first. *)
Definition rank (k : FilterKind) : nat :=
  match k with
  | AdditiveTint => 0
  | SolidTint => 1
  | MultiplyFilter => 2
  | NegativeMaskFilter => 3
  | PositiveMaskFilter => 4
  end.

(** The descriptor of kind [k] is present in [ctx.filters]. *)
Definition present (filters : Filters) (k : FilterKind) : bool :=
  match k with
  | AdditiveTint => bool_decide (is_Some (LinearAdd filters))
  | SolidTint => bool_decide (is_Some (Tint filters))
  | MultiplyFilter => bool_decide (is_Some (Multiply filters))
  | NegativeMaskFilter => bool_decide (is_Some (NegativeMask filters))
  | PositiveMaskFilter => bool_decide (is_Some (PositiveMask filters))
  end.

(** The one descriptor honored: the first present one in precedence order. *)
Definition honored (filters : Filters) : option FilterKind :=
  List.find (present filters) precedence.

(** The number of descriptors present. *)
Definition descriptors (filters : Filters) : nat :=
  length (List.filter (present filters) precedence).

(** The routine that serves a descriptor of kind [k]. *)
Definition routine (env : Env) (this : Image) (filters : Filters)
    (k : FilterKind) (srcX srcY srcW srcH : float) : option (Draw Source) :=
  match k with
  | AdditiveTint =>
    color ← LinearAdd filters;
    Some (_renderFilter this srcX srcY srcW srcH color "lighter")
  | SolidTint =>
    color ← Tint filters;
    Some (_renderFilter this srcX srcY srcW srcH color "source-over")
  | MultiplyFilter =>
    color ← Multiply filters;
    Some (_renderMultiply env this srcX srcY srcW srcH color)
  | NegativeMaskFilter =>
    mask ← NegativeMask filters;
    Some (_renderMask this srcX srcY srcW srcH mask "source-in")
  | PositiveMaskFilter =>
    mask ← PositiveMask filters;
    Some (_renderMask this srcX srcY srcW srcH mask "source-out")
  end.

(** ** Observations on traces *)

(** The deliveries of the completion notifier of [this]. *)
Definition is_fire_of (this : nat) (e : Event) : bool :=
  match e with
  | EvFire i _ _ => bool_decide (i = this)
  | _ => false
  end.

Definition fires_of (this : nat) (tr : list Event) : list Event :=
  List.filter (is_fire_of this) tr.

(** The decodes started. *)
Definition is_decode (e : Event) : bool :=
  match e with
  | EvDecode _ _ => true
  | _ => false
  end.

Definition decodes (tr : list Event) : list Event := List.filter is_decode tr.



(** The PubSub signals emitted by [this]. *)
Definition is_emit_of (this : nat) (e : Event) : bool :=
  match e with
  | EvEmit i _ => bool_decide (i = this)
  | _ => false
  end.

Definition emits_of (this : nat) (tr : list Event) : list Event :=
  List.filter (is_emit_of this) tr.

(** Two worlds that agree on which surface every instance references, on the
    notifier and the kind of every surface, on the image cache, on the
    timers and on the decodes started. *)
Definition same_refs (w w' : World) : Prop :=
  (∀ i, _srcImg (getImage i w') = _srcImg (getImage i w)) ∧
  (∀ s, s___cb (getSurface s w') = s___cb (getSurface s w)) ∧
  (∀ s, s_isCanvas (getSurface s w') = s_isCanvas (getSurface s w)) ∧
  ImageCache w' = ImageCache w ∧
  timers w' = timers w ∧
  decodes (trace w') = decodes (trace w).

(** ** The phases of [_setSrcImg] *)

(** What [_setSrcImg] has in [img] after the look in the image cache. *)
Definition found_source (img : option nat) (url : string)
    (forceReload : bool) (w : World) : Found :=
  match img with
  | Some i => Object i
  | None =>
    if Js.truthy_str url && negb forceReload then read_ImageCache url w
    else Nothing
  end.

(** The surface and the url that the lookups of [_setSrcImg] settle on,
    when the image cache did not answer with a member of
    [Object.prototype]: the surface passed in, the one of the image cache,
    the one of the base64 cache, or none yet. *)
Definition lookup_source (env : Env) (img : option nat) (url : string)
    (forceReload : bool) (w : World) : option nat * string :=
  let img :=
    match found_source img url forceReload w with
    | Object i => Some i
    | _ => None
    end in
  match img, forceReload, Image_get env with
  | None, false, Some get =>
    match get url with
    | PreImage b64 => (Some b64, url)
    | PreURL b64 => if Js.truthy_str b64 then (None, b64) else (None, url)
    | PreAbsent => (None, url)
    end
  | _, _, _ => (img, url)
  end.

(** The native resources that a forced reload releases. *)
Definition release (env : Env) (img : option nat) (url : string)
    (forceReload : bool) (w : World) : World :=
  if forceReload then
    let w :=
      match img with
      | Some i => if s_destroy (getSurface i w) then log (EvDestroy i) w
                  else w
      | None => w
      end in
    if Js.truthy_str url && hasDeleteTexture env
    then log (EvDeleteTexture url) w else w
  else w.

(** The end of [_setSrcImg], from [this._srcImg = img] on. *)
Definition attach (this img : nat) (url : string) (w : World) : World :=
  let w := updImage this (set__srcImg (Some img)) w in
  if s_isCanvas (getSurface img w) then _onLoad this false (Some img) w
  else
    let w :=
      match s___cb (getSurface img w) with
      | Some _ => w
      | None =>
        let w := updSurface img (fun x =>
                   mkSurface (s_width x) (s_height x) (s_src x)
                     (s_isCanvas x) (s_destroy x) (Some Callback.new)) w in
        let w := if Js.truthy_str url
                 then set_ImageCache (<[url := img]> (ImageCache w)) w
                 else w in
        if negb (Js.truthy_str (s_src (getSurface img w)))
           && Js.truthy_str url
        then
          let w := updSurface img (fun x =>
                     mkSurface (s_width x) (s_height x) url (s_isCanvas x)
                       (s_destroy x) (s___cb x)) w in
          let w := updImage this (fun i =>
                     set__map (set_map_url url (_map i)) i) w in
          log (EvDecode img url) w
        else w
      end in
    match s___cb (getSurface img w) with
    | None => w
    | Some cb =>
      let '(cb', now) := Callback.run this cb in
      let w := updSurface img (fun x =>
                 mkSurface (s_width x) (s_height x) (s_src x) (s_isCanvas x)
                   (s_destroy x) (Some cb')) w in
      match now with
      | Some err => _onLoad this err (Some img) w
      | None => w
      end
    end.

(** The scale of a region map is usable: it was set, to a number that is
    neither zero nor [NaN]. *)
Definition scaled (map : ImageMap) : Prop :=
  ∃ s, map_scale map = Some s ∧ Js.truthy s = true.

(** ** Which surface a url settles on *)

(** The url that the constructor passes to [_setSrcImg]: the one of the
    region map once the resource loader has filled it. *)
Definition resolved_url (env : Env) (opts : Opts) : string :=
  map_url
    (updateImageMap env
       (ImageMap_init 0 0 (-1) (-1) 0 0 0 0 (Js.or_else_str (o_url opts) ""))
       (o_url opts) (o_sourceX opts) (o_sourceY opts) (o_sourceW opts)
       (o_sourceH opts)).

(** The base64 cache answers raw base64 for [url], which [_setSrcImg] then
    loads from instead of [url]. *)
Definition alternate_url (env : Env) (url : string) : bool :=
  match Image_get env with
  | Some get =>
    match get url with
    | PreURL b64 => Js.truthy_str b64
    | _ => false
    end
  | None => false
  end.

(** The image that the base64 cache holds preloaded for [url]. *)
Definition preloaded (env : Env) (url : string) : option nat :=
  match Image_get env with
  | Some get =>
    match get url with
    | PreImage img => Some img
    | _ => None
    end
  | None => None
  end.







(** ** An attempt that follows a pending one *)




(** ** Environments and worlds of the examples *)

(** A resource loader that knows no sprite sheet: it copies its arguments
    into the map, with the defaults of an absent rectangle, and sets the
    scale to 1. *)
Definition plain_loader (map : ImageMap) (url : option string)
    (x y w h : option float) : ImageMap :=
  mkImageMap (Js.or_else_str url "") (Js.or_else x 0) (Js.or_else y 0)
    (default (-1)%float w) (default (-1)%float h)
    (map_marginTop map) (map_marginRight map) (map_marginBottom map)
    (map_marginLeft map) (Some 1%float).

(** A browser: a document, no native layer, no [Image.get]. *)
Definition browser : Env :=
  mkEnv plain_loader false None false true
    (fun _ _ width height => mkImageData width height).


Definition opts_url (url : string) : Opts :=
  mkOpts (Some url) None None false None None None None.

(** One Image constructed for ["a.png"] in a browser; its surface is 0 and
    still decoding. *)
Definition world_loading : World := init browser 0 (opts_url "a.png") empty_world.

(** The same after the surface fired [load] with a width still zero. *)
Definition world_zero_width : World := dom_event 0 true world_loading.

(** The same after the surface fired [error] instead. *)
Definition world_error : World := dom_event 0 false world_loading.

(** The same after the surface was decoded as 100 x 40 and fired [load]. *)
Definition world_loaded : World :=
  dom_event 0 true (platform_set_size 0 100 40 world_loading).

(** A loaded image with a region 80 wide and margins of 10 left and right. *)
Definition image_margins : Image :=
  mkImage (Callback.mk true (Some Loaded) [])
    (mkImageMap "a.png" 0 0 80 40 0 10 0 10 (Some 1%float))
    "a.png" 1 false (Some 0).

Definition caller : Context := mkContext (CallerCtx 0) None.



Definition red : Color := mkColor 255 0 0 1.

(** Filters that hold a tint, a multiply and a positive-mask descriptor at
    once. *)
Definition filters_three : Filters :=
  mkFilters None (Some red) (Some red) None (Some image_margins).

(** A second instance that shares surface 0 with the first and asks for a
    height of 20 at scale 2. *)
Definition world_shared : World :=
  init browser 1
    (mkOpts (Some "a.png") (Some 2%float) None false None None None
       (Some 20%float))
    (platform_set_size 0 100 40 world_loading).











(** ** Further observations *)

(** What the constructor fixes of an Image: the url it was asked for and
    the scale. *)
Definition request_of (i : Image) : string * float :=
  (_originalURL i, _scale i).

(** The context that a canvas call goes to. *)
Definition op_target (o : CanvasOp) : Target :=
  match o with
  | OpSize ctx _ _ | OpComposite ctx _ | OpFillStyle ctx _
  | OpFillRect ctx _ _ _ _ | OpClear ctx | OpPutImageData ctx _ _ _ _ _ _
  | OpDrawImage ctx _ _ _ _ _ _ _ _ _ => ctx
  end.

(** The call goes to one of the scratch contexts of the module. *)
Definition on_scratch (o : CanvasOp) : bool :=
  match op_target o with
  | CallerCtx _ => false
  | FilterCtx | ImgDataCtx => true
  end.

(** A world whose only surface, 7, is a canvas of 64 by 32. *)
Definition world_canvas : World :=
  set_heap (<[7 := mkSurface 64 32 "" true false None]> ∅) empty_world.

(** Filters that hold a multiply descriptor only. *)
Definition filters_multiply : Filters :=
  mkFilters None None (Some red) None None.

(** * Properties *)

(** ** Reading the stores after a write *)

Lemma getImage_updImage this f w :
  getImage this (updImage this f w) = f (getImage this w).
Proof. unfold getImage, updImage; simpl. by rewrite lookup_total_insert_eq. Qed.

Lemma getImage_updImage_ne this j f w :
  j ≠ this → getImage this (updImage j f w) = getImage this w.
Proof.
  intros Hne. unfold getImage, updImage; simpl.
  by rewrite lookup_total_insert_ne.
Qed.

Lemma getSurface_updSurface s f w :
  getSurface s (updSurface s f w) = f (getSurface s w).
Proof.
  unfold getSurface, updSurface; simpl. by rewrite lookup_total_insert_eq.
Qed.

Lemma getSurface_updSurface_ne s t f w :
  t ≠ s → getSurface s (updSurface t f w) = getSurface s w.
Proof.
  intros Hne. unfold getSurface, updSurface; simpl.
  by rewrite lookup_total_insert_ne.
Qed.

Lemma getImage_updSurface this s f w :
  getImage this (updSurface s f w) = getImage this w.
Proof. reflexivity. Qed.

Lemma getSurface_updImage s this f w :
  getSurface s (updImage this f w) = getSurface s w.
Proof. reflexivity. Qed.

Lemma getImage_log this e w : getImage this (log e w) = getImage this w.
Proof. reflexivity. Qed.

Lemma getSurface_log s e w : getSurface s (log e w) = getSurface s w.
Proof. reflexivity. Qed.

Lemma fires_of_app this tr tr' :
  fires_of this (tr ++ tr') = fires_of this tr ++ fires_of this tr'.
Proof. apply List.filter_app. Qed.

Lemma decodes_app tr tr' : decodes (tr ++ tr') = decodes tr ++ decodes tr'.
Proof. apply List.filter_app. Qed.

(** ** What [notify] and [_onLoad] touch *)

Lemma notify_fired this p w :
  Callback.fired (_cb (getImage this (notify this p w))) = true.
Proof.
  unfold notify, Callback.fire, Callback.fired.
  destruct (Callback.fired_ (_cb (getImage this w))) eqn:Hf; [exact Hf |].
  rewrite getImage_log, getImage_updImage. reflexivity.
Qed.

Lemma notify_isError this p w :
  _isError (getImage this (notify this p w)) = _isError (getImage this w).
Proof.
  unfold notify, Callback.fire, Callback.fired.
  destruct (Callback.fired_ (_cb (getImage this w))); [reflexivity |].
  rewrite getImage_log, getImage_updImage. reflexivity.
Qed.

Lemma notify_map i this p w :
  _map (getImage i (notify this p w)) = _map (getImage i w).
Proof.
  unfold notify, Callback.fire, Callback.fired.
  destruct (Callback.fired_ (_cb (getImage this w))); [reflexivity |].
  rewrite getImage_log. destruct (decide (this = i)) as [->|Hne].
  - rewrite getImage_updImage. reflexivity.
  - by rewrite getImage_updImage_ne.
Qed.

Lemma notify_srcImg i this p w :
  _srcImg (getImage i (notify this p w)) = _srcImg (getImage i w).
Proof.
  unfold notify, Callback.fire, Callback.fired.
  destruct (Callback.fired_ (_cb (getImage this w))); [reflexivity |].
  rewrite getImage_log. destruct (decide (this = i)) as [->|Hne].
  - rewrite getImage_updImage. reflexivity.
  - by rewrite getImage_updImage_ne.
Qed.

Lemma notify_other i this p w :
  this ≠ i →
  getImage i (notify this p w) = getImage i w ∧
  fires_of i (trace (notify this p w)) = fires_of i (trace w).
Proof.
  intros Hne. unfold notify, Callback.fire, Callback.fired.
  destruct (Callback.fired_ (_cb (getImage this w))); [done |].
  split.
  - by rewrite getImage_log, getImage_updImage_ne.
  - simpl. rewrite fires_of_app. simpl.
    rewrite bool_decide_eq_false_2 by done. apply app_nil_r.
Qed.

Lemma notify_frame this p w :
  heap (notify this p w) = heap w ∧
  ImageCache (notify this p w) = ImageCache w ∧
  timers (notify this p w) = timers w ∧
  decodes (trace (notify this p w)) = decodes (trace w).
Proof.
  unfold notify, Callback.fire, Callback.fired.
  destruct (Callback.fired_ (_cb (getImage this w))); [done |].
  repeat split. simpl. rewrite decodes_app. apply app_nil_r.
Qed.

(** A completion for another instance leaves this one as it was. *)
Lemma _onLoad_other i this err img w :
  this ≠ i →
  getImage i (_onLoad this err img w) = getImage i w ∧
  fires_of i (trace (_onLoad this err img w)) = fires_of i (trace w).
Proof.
  intros Hne. unfold _onLoad.
  destruct (superseded img (_srcImg (getImage this w))); [done |].
  destruct err.
  - destruct (notify_other i this NoImage
                (updImage this (set__isError true)
                   (log (EvLogError (map_url (_map (getImage this w)))) w)) Hne)
      as [-> ->].
    split.
    + by rewrite getImage_updImage_ne.
    + simpl. rewrite fires_of_app. apply app_nil_r.
  - destruct (_srcImg (getImage this w)) as [s|].
    + destruct (resolve_size _ _ _) as [[[mw mh] sw] sh].
      match goal with
      | |- context [notify this Loaded ?w0] =>
        destruct (notify_other i this Loaded w0 Hne) as [-> ->]
      end.
      rewrite getImage_updImage_ne, getImage_updSurface by done.
      destruct (Js.seq _ 0).
      * rewrite getImage_log, getImage_updImage_ne by done. split; [done |].
        simpl. rewrite fires_of_app. apply app_nil_r.
      * rewrite getImage_updImage_ne by done. done.
    + by rewrite getImage_updImage_ne.
Qed.

Lemma same_refs_refl w : same_refs w w.
Proof. by repeat split. Qed.

Lemma same_refs_trans w1 w2 w3 :
  same_refs w1 w2 → same_refs w2 w3 → same_refs w1 w3.
Proof.
  intros (H1 & H2 & H3 & H4 & H5 & H6) (K1 & K2 & K3 & K4 & K5 & K6).
  repeat split; intros; congruence.
Qed.

Lemma same_refs_updImage this f w :
  (∀ x, _srcImg (f x) = _srcImg x) → same_refs w (updImage this f w).
Proof.
  intros Hf. repeat split; try done.
  intros i. destruct (decide (this = i)) as [->|Hne].
  - by rewrite getImage_updImage.
  - by rewrite getImage_updImage_ne.
Qed.

Lemma same_refs_updSurface s f w :
  (∀ x, s___cb (f x) = s___cb x) →
  (∀ x, s_isCanvas (f x) = s_isCanvas x) →
  same_refs w (updSurface s f w).
Proof.
  intros Hcb Hcanvas. repeat split; try done.
  - intros t. destruct (decide (s = t)) as [->|Hne].
    + by rewrite getSurface_updSurface.
    + by rewrite getSurface_updSurface_ne.
  - intros t. destruct (decide (s = t)) as [->|Hne].
    + by rewrite getSurface_updSurface.
    + by rewrite getSurface_updSurface_ne.
Qed.

Lemma same_refs_log e w : is_decode e = false → same_refs w (log e w).
Proof.
  intros He. repeat split; try done.
  simpl. rewrite decodes_app. simpl. rewrite He. apply app_nil_r.
Qed.

Lemma same_refs_notify this p w : same_refs w (notify this p w).
Proof.
  unfold notify, Callback.fire, Callback.fired.
  destruct (Callback.fired_ (_cb (getImage this w)));
    [apply same_refs_refl |].
  eapply same_refs_trans; [| by apply same_refs_log].
  by apply same_refs_updImage.
Qed.

(** No completion changes which surface an instance references, the image
    cache, the notifiers of the surfaces, the timers or the decodes
    started. *)
Lemma _onLoad_frame this err img w : same_refs w (_onLoad this err img w).
Proof.
  unfold _onLoad.
  destruct (superseded img (_srcImg (getImage this w)));
    [apply same_refs_refl |].
  destruct err.
  - eapply same_refs_trans; [| apply same_refs_notify].
    eapply same_refs_trans; [| by apply same_refs_updImage].
    by apply same_refs_log.
  - destruct (_srcImg (getImage this w)) as [s|].
    + destruct (resolve_size _ _ _) as [[[mw mh] sw] sh].
      eapply same_refs_trans; [| apply same_refs_notify].
      eapply same_refs_trans; [| by apply same_refs_updImage].
      eapply same_refs_trans; [| by apply same_refs_updSurface].
      destruct (Js.seq _ 0).
      * eapply same_refs_trans; [| by apply same_refs_log].
        by apply same_refs_updImage.
      * by apply same_refs_updImage.
    + by apply same_refs_updImage.
Qed.

(** ** Superseded completions *)





(** The phases of [_setSrcImg], named. *)
Lemma _setSrcImg_phases env this img url forceReload w :
  found_source img url forceReload
    (updImage this (λ i, set__cb (Callback.reset (_cb i)) i) w) ≠ Member →
  _setSrcImg env this img url forceReload w
  = let w := updImage this (λ i, set__cb (Callback.reset (_cb i)) i) w in
    let '(img, url) := lookup_source env img url forceReload w in
    let w := release env img url forceReload w in
    let '(img, w) := match img with
                     | Some i => (i, w)
                     | None => new_Image w
                     end in
    attach this img url w.
Proof.
  intros Hfound. unfold _setSrcImg, lookup_source. cbv zeta.
  fold (found_source img url forceReload
          (updImage this (λ i, set__cb (Callback.reset (_cb i)) i) w)).
  by destruct (found_source _ _ _ _).
Qed.

(** Where the model stops: the read was answered by a member of
    [Object.prototype]. *)
Lemma _setSrcImg_member env this img url forceReload w :
  found_source img url forceReload
    (updImage this (λ i, set__cb (Callback.reset (_cb i)) i) w) = Member →
  _setSrcImg env this img url forceReload w
  = log (EvInherited url)
      (updImage this (λ i, set__cb (Callback.reset (_cb i)) i) w).
Proof.
  intros Hfound. unfold _setSrcImg. cbv zeta.
  fold (found_source img url forceReload
          (updImage this (λ i, set__cb (Callback.reset (_cb i)) i) w)).
  by rewrite Hfound.
Qed.

Lemma found_source_cases img url forceReload w :
  found_source img url forceReload w = Member ∨
  found_source img url forceReload w ≠ Member.
Proof. destruct (found_source img url forceReload w); auto. Qed.

Lemma found_source_explicit B url forceReload w :
  found_source (Some B) url forceReload w ≠ Member.
Proof. done. Qed.


Lemma found_source_own url forceReload w :
  Object_prototype_member url = false →
  found_source None url forceReload w ≠ Member.
Proof.
  intros Hown. unfold found_source, read_ImageCache. rewrite Hown.
  by repeat case_match.
Qed.

Lemma found_source_hit img url forceReload s w :
  ImageCache w !! url = Some s →
  found_source img url forceReload w ≠ Member.
Proof.
  intros Hhit. unfold found_source, read_ImageCache. rewrite Hhit.
  by repeat case_match.
Qed.


Lemma release_images env img url forceReload w :
  images (release env img url forceReload w) = images w ∧
  heap (release env img url forceReload w) = heap w ∧
  ImageCache (release env img url forceReload w) = ImageCache w ∧
  decodes (trace (release env img url forceReload w)) = decodes (trace w).
Proof.
  unfold release. repeat case_match; simpl; repeat split;
    rewrite ?decodes_app; simpl; rewrite ?app_nil_r; done.
Qed.

Lemma attach_srcImg this img url w :
  _srcImg (getImage this (attach this img url w)) = Some img.
Proof.
  unfold attach.
  set (w1 := updImage this (set__srcImg (Some img)) w).
  assert (H1 : _srcImg (getImage this w1) = Some img)
    by (unfold w1; by rewrite getImage_updImage).
  destruct (s_isCanvas (getSurface img w1)).
  { destruct (_onLoad_frame this false (Some img) w1) as [-> _]. exact H1. }
  match goal with
  | |- context [s___cb (getSurface img ?w2)] =>
    set (w3 := w2); assert (H3 : _srcImg (getImage this w3) = Some img)
  end.
  { unfold w3. repeat case_match;
      rewrite ?getImage_log, ?getImage_updImage; exact H1. }
  destruct (s___cb (getSurface img w3)) as [cb|]; [| exact H3].
  destruct (Callback.run this cb) as [cb' [err|]].
  - match goal with
    | |- context [_onLoad this err (Some img) ?w4] =>
      destruct (_onLoad_frame this err (Some img) w4) as [-> _]
    end.
    exact H3.
  - exact H3.
Qed.

Lemma attach_other j this img url w :
  this ≠ j → getImage j (attach this img url w) = getImage j w.
Proof.
  intros Hne. unfold attach.
  set (w1 := updImage this (set__srcImg (Some img)) w).
  assert (H1 : getImage j w1 = getImage j w)
    by (unfold w1; by rewrite getImage_updImage_ne).
  destruct (s_isCanvas (getSurface img w1)).
  { destruct (_onLoad_other j this false (Some img) w1 Hne) as [-> _].
    exact H1. }
  match goal with
  | |- context [s___cb (getSurface img ?w2)] =>
    set (w3 := w2); assert (H3 : getImage j w3 = getImage j w)
  end.
  { unfold w3. repeat case_match;
      rewrite ?getImage_log, ?getImage_updImage_ne by done; exact H1. }
  destruct (s___cb (getSurface img w3)) as [cb|]; [| exact H3].
  destruct (Callback.run this cb) as [cb' [err|]].
  - match goal with
    | |- context [_onLoad this err (Some img) ?w4] =>
      destruct (_onLoad_other j this err (Some img) w4 Hne) as [-> _]
    end.
    exact H3.
  - exact H3.
Qed.

(** After [_setSrcImg] with an explicit surface, that surface is the
    current one. *)
Lemma _setSrcImg_explicit env this B url forceReload w :
  _srcImg (getImage this (_setSrcImg env this (Some B) url forceReload w))
  = Some B.
Proof.
  rewrite _setSrcImg_phases by apply found_source_explicit. cbv zeta.
  assert (Hl : ∀ w0, lookup_source env (Some B) url forceReload w0
                     = (Some B, url)).
  { intros w0. unfold lookup_source, found_source. by repeat case_match. }
  rewrite Hl. apply attach_srcImg.
Qed.

(** ** Logical size *)

(** [0 / s === 0] for every number [s] that is neither zero nor [NaN]. *)
Lemma zero_div_truthy (s : float) :
  Js.truthy s = true → Js.seq (0 / s) 0 = true.
Proof.
  unfold Js.truthy, Js.seq, PrimFloat.is_zero, PrimFloat.is_nan.
  rewrite !FloatAxioms.eqb_spec, div_spec.
  change (Prim2SF 0) with (S754_zero false).
  change (Prim2SF zero) with (S754_zero false).
  destruct (Prim2SF s) as [b|b| |b m e]; simpl; done.
Qed.

(** C4: [getWidth()] is [(width + marginLeft + marginRight) / scale] and
    [getHeight()] is [(height + marginTop + marginBottom) / scale] when the
    dimension is resolved; while the dimension is the sentinel [-1] each is
    [0 / scale], which is 0 for the scale of a region map that the resource
    loader has set to a non-zero number. *)
Theorem logical_size (this : Image) :
  let map := _map this in
  let scale := Js.to_number (map_scale map) in
  (Js.seq (map_width map) (-1) = false →
   getWidth this
   = ((map_width map + map_marginLeft map + map_marginRight map) / scale)%float) ∧
  (Js.seq (map_height map) (-1) = false →
   getHeight this
   = ((map_height map + map_marginTop map + map_marginBottom map) / scale)%float) ∧
  (Js.seq (map_width map) (-1) = true →
   getWidth this = (0 / scale)%float ∧
   (scaled map → Js.seq (getWidth this) 0 = true)) ∧
  (Js.seq (map_height map) (-1) = true →
   getHeight this = (0 / scale)%float ∧
   (scaled map → Js.seq (getHeight this) 0 = true)).
Proof.
  cbv zeta. unfold getWidth, getHeight, scaled.
  split; [| split; [| split]].
  - by intros ->.
  - by intros ->.
  - intros ->. split; [done |].
    intros (s & -> & Hs). by apply zero_div_truthy.
  - intros ->. split; [done |].
    intros (s & -> & Hs). by apply zero_div_truthy.
Qed.

Lemma logical_size_witness :
  getWidth image_margins = 100%float ∧
  Js.seq (getWidth (getImage 0 world_loading)) 0 = true.
Proof.
  destruct (logical_size image_margins) as (Hw & _).
  destruct (logical_size (getImage 0 world_loading)) as (_ & _ & Hz & _).
  split.
  - rewrite Hw; reflexivity.
  - apply Hz; [reflexivity |]. exists 1%float. split; reflexivity.
Defined.

(** ** The render dispatcher *)

Lemma bind_Ok {A B : Type} (m : Draw A) (k : A → Draw B) ops b :
  bind m k = (ops, Ok b) →
  ∃ pre a post, m = (pre, Ok a) ∧ k a = (post, Ok b) ∧ ops = pre ++ post.
Proof.
  unfold bind. destruct m as [pre [a|e]]; [| intros [=]].
  destruct (k a) as [post r] eqn:Hk. intros [= <- ->].
  by exists pre, a, post.
Qed.

(** C5: on a loaded Image, a draw call with fewer than 9 arguments blits the
    region of the map into the destination rectangle shrunk
    margin-proportionally: with [scaleX = destW / (marginLeft + width +
    marginRight)] the blit goes to [destX + scaleX * marginLeft] and is
    [scaleX * width] wide, and symmetrically for Y and the height; with
    margins 10, 10 around a width of 80 and [destW = 50] the margins come
    out as 5 each and the content as 40.  With 9 arguments or more the
    source rectangle is the explicit one and the destination is the one
    given, whatever the margins. *)
Theorem render_rectangles
    (env : Env) (this : Image) (ctx : Context) (args : list float) :
  Callback.fired (_cb this) = true →
  let map := _map this in
  let destX := default (Js.or_else (argument args 1) 0) (argument args 5) in
  let destY := default (Js.or_else (argument args 2) 0) (argument args 6) in
  let destW := default (Js.or_else (argument args 3) 0) (argument args 7) in
  let destH := default (Js.or_else (argument args 4) 0) (argument args 8) in
  let scaleX :=
    (destW / (map_marginLeft map + map_width map + map_marginRight map))%float in
  let scaleY :=
    (destH / (map_marginTop map + map_height map + map_marginBottom map))%float in
  (S (length args) < 9 →
   (isNative env = true ∨ ctx_filters ctx = None →
    render env this ctx args
    = ([OpDrawImage (ctx_target ctx) (SrcImg (_srcImg this))
          (map_x map) (map_y map) (map_width map) (map_height map)
          (destX + scaleX * map_marginLeft map)
          (destY + scaleY * map_marginTop map)
          (scaleX * map_width map) (scaleY * map_height map)], Ok tt)) ∧
   (∀ ops, render env this ctx args = (ops, Ok tt) →
      ∃ pre src srcX srcY,
        ops = pre ++
          [OpDrawImage (ctx_target ctx) src srcX srcY
             (map_width map) (map_height map)
             (destX + scaleX * map_marginLeft map)
             (destY + scaleY * map_marginTop map)
             (scaleX * map_width map) (scaleY * map_height map)]) ∧
   (map_marginLeft map = 10%float → map_width map = 80%float →
    map_marginRight map = 10%float → destW = 50%float →
    (scaleX * map_marginLeft map = 5 ∧ scaleX * map_width map = 40 ∧
     scaleX * map_marginRight map = 5)%float)) ∧
  (9 ≤ S (length args) →
   (isNative env = true ∨ ctx_filters ctx = None →
    render env this ctx args
    = ([OpDrawImage (ctx_target ctx) (SrcImg (_srcImg this))
          (Js.to_number (argument args 1)) (Js.to_number (argument args 2))
          (Js.to_number (argument args 3)) (Js.to_number (argument args 4))
          destX destY destW destH], Ok tt)) ∧
   (∀ ops, render env this ctx args = (ops, Ok tt) →
      ∃ pre src srcX srcY,
        ops = pre ++
          [OpDrawImage (ctx_target ctx) src srcX srcY
             (Js.to_number (argument args 3)) (Js.to_number (argument args 4))
             destX destY destW destH])).
Proof.
  intros Hfired. cbv zeta.
  assert (Hstage : isNative env = true ∨ ctx_filters ctx = None →
    (if negb (isNative env) then _applyFilters env this <$> ctx_filters ctx
     else None) = None).
  { intros [-> | ->]; [done | by destruct (negb _)]. }
  unfold render, render_body. rewrite Hfired. cbn [negb].
  split; intros Hlen.
  - apply Nat.ltb_lt in Hlen. rewrite Hlen.
    split; [| split].
    + intros Hplain. rewrite (Hstage Hplain). reflexivity.
    + intros ops.
      destruct (if negb (isNative env) then _ else None) as [stage|].
      * intros (pre & r & post & _ & Hpost & ->)%bind_Ok.
        destruct r; injection Hpost as <-; eauto.
      * intros [= <-]. eexists [], _, _, _. reflexivity.
    + intros -> -> -> ->. by vm_compute.
  - apply Nat.ltb_ge in Hlen. rewrite Hlen.
    split.
    + intros Hplain. rewrite (Hstage Hplain). reflexivity.
    + intros ops.
      destruct (if negb (isNative env) then _ else None) as [stage|].
      * intros (pre & r & post & _ & Hpost & ->)%bind_Ok.
        destruct r; injection Hpost as <-; eauto.
      * intros [= <-]. eexists [], _, _, _. reflexivity.
Qed.

Lemma render_rectangles_witness :
  render browser image_margins caller [0; 0; 50; 20]%float
  = ([OpDrawImage (CallerCtx 0) (SrcImg (Some 0)) 0 0 80 40 5 0 40 20], Ok tt).
Proof.
  destruct (render_rectangles browser image_margins caller
              [0; 0; 50; 20]%float eq_refl) as [Hfew _].
  destruct (Hfew ltac:(simpl; lia)) as [Hplain _].
  rewrite Hplain by (right; reflexivity). reflexivity.
Defined.

(** ** The filter pipeline *)

Lemma render_scratch_result this ctx args :
  ctx ≠ FilterCtx ∧ ctx ≠ ImgDataCtx ∨
  ∃ ops, render_scratch this ctx args = (ops, Ok tt) ∧
         forallb on_scratch ops = true.
Proof.
  destruct ctx as [id| |]; [left; done | right | right];
    unfold render_scratch, render_body;
    destruct (negb (Callback.fired (_cb this)));
    try (by eexists); destruct (S (length args) <? 9); by eexists.
Qed.

Lemma filter_canvas_render this args :
  ∃ ops, render_scratch this FilterCtx args = (ops, Ok tt) ∧
         forallb on_scratch ops = true.
Proof. by destruct (render_scratch_result this FilterCtx args) as [[? ?]|?]. Qed.

Lemma _renderFilter_result this sx sy sw sh color op :
  ∃ pre, _renderFilter this sx sy sw sh color op = (pre, Ok SrcFilterCanvas) ∧
         forallb on_scratch pre = true.
Proof.
  unfold _renderFilter.
  destruct (filter_canvas_render this [sx; sy; sw; sh; 0; 0; sw; sh]%float)
    as (ops & -> & Hops).
  cbn. eexists. split; [reflexivity |].
  repeat (cbn [forallb on_scratch op_target andb];
          rewrite ?forallb_app, ?Hops).
  done.
Qed.

Lemma _renderMask_result this sx sy sw sh mask op :
  ∃ pre, _renderMask this sx sy sw sh mask op = (pre, Ok SrcFilterCanvas) ∧
         forallb on_scratch pre = true.
Proof.
  unfold _renderMask.
  destruct (filter_canvas_render this [sx; sy; sw; sh; 0; 0; sw; sh]%float)
    as (ops & -> & Hops).
  destruct (filter_canvas_render mask
              [getSourceX mask; getSourceY mask; getSourceWidth mask;
               getSourceHeight mask; 0; 0; sw; sh]%float)
    as (mops & -> & Hmops).
  cbn. eexists. split; [reflexivity |].
  repeat (cbn [forallb on_scratch op_target andb];
          rewrite ?forallb_app, ?Hops, ?Hmops).
  done.
Qed.

Lemma _renderMultiply_result env this sx sy sw sh color :
  ∃ pre, forallb on_scratch pre = true ∧
    (_renderMultiply env this sx sy sw sh color = (pre, Ok SrcFilterCanvas) ∨
     ∃ e, _renderMultiply env this sx sy sw sh color = (pre, Throw e)).
Proof.
  unfold _renderMultiply, getImageData.
  destruct (negb (hasDocument env)); [exists []; split; [done | right; by eexists] |].
  destruct (_ || _); [exists []; split; [done | right; by eexists] |].
  unfold render_scratch, render_body.
  destruct (negb (Callback.fired (_cb this)));
    cbn; eexists; (split; [| left; reflexivity]); reflexivity.
Qed.

Lemma _applyFilters_result env this filters sx sy sw sh :
  (descriptors filters = 0 ∧
   _applyFilters env this filters sx sy sw sh
   = ([], Ok (SrcImg (_srcImg this)))) ∨
  (0 < descriptors filters ∧
   ∃ pre, forallb on_scratch pre = true ∧
     (_applyFilters env this filters sx sy sw sh = (pre, Ok SrcFilterCanvas) ∨
      (honored filters = Some MultiplyFilter ∧
       ∃ e, _applyFilters env this filters sx sy sw sh = (pre, Throw e)))).
Proof.
  destruct filters as [[la|] [ti|] [mu|] [ne|] [po|]];
    unfold _applyFilters;
    cbn [LinearAdd Tint Multiply NegativeMask PositiveMask];
    try (left; split; reflexivity);
    right; (split; [vm_compute; lia |]).
  all: first
    [ destruct (_renderFilter_result this sx sy sw sh la "lighter")
        as (pre & Hr & Hpre); exists pre; split; [done | by left]
    | destruct (_renderFilter_result this sx sy sw sh ti "source-over")
        as (pre & Hr & Hpre); exists pre; split; [done | by left]
    | destruct (_renderMultiply_result env this sx sy sw sh mu)
        as (pre & Hpre & [Hr | Hr]); exists pre;
      (split; [done |]); [by left | right; split; [reflexivity | done]]
    | destruct (_renderMask_result this sx sy sw sh ne "source-in")
        as (pre & Hr & Hpre); exists pre; split; [done | by left]
    | destruct (_renderMask_result this sx sy sw sh po "source-out")
        as (pre & Hr & Hpre); exists pre; split; [done | by left] ].
Qed.

(** The claim of C6 fails on an Image whose notifier has not fired: the
    draw call returns before the filter stage, so no routine is applied
    and nothing is drawn, whatever descriptors the context carries. *)
Lemma pending_image_applies_no_filter :
  isNative browser = false ∧
  descriptors filters_three = 3 ∧
  Callback.fired (_cb (getImage 0 world_loading)) = false ∧
  render browser (getImage 0 world_loading)
    (mkContext (CallerCtx 0) (Some filters_three)) [0; 0; 50; 50]%float
  = ([], Ok tt).
Proof. by vm_compute. Qed.

(** C6, amended: when the filters of the context hold at least one
    descriptor, one kind is the honored one: it is present, every kind of
    higher precedence (additive-tint > solid-tint > multiply >
    negative-mask > positive-mask) is absent, and [_applyFilters] is the
    routine of that kind, however many other descriptors are present.  On
    the path that is not native, a draw call on an Image whose notifier has
    fired applies exactly that routine, to the source rectangle of the
    unfiltered draw call: its canvas calls are those of the routine,
    followed by one blit from the filter canvas, of the size and to the
    destination of the unfiltered blit; the only other outcome is that the
    multiply routine throws, and the draw call with it.  A draw call on an
    Image whose notifier has not fired applies no routine and draws
    nothing. *)
Theorem one_filter_by_precedence
    (env : Env) (this : Image) (filters : Filters) :
  0 < descriptors filters →
  ∃ k,
    honored filters = Some k ∧
    present filters k = true ∧
    (∀ k', rank k' < rank k → present filters k' = false) ∧
    (∀ srcX srcY srcW srcH,
       routine env this filters k srcX srcY srcW srcH
       = Some (_applyFilters env this filters srcX srcY srcW srcH)) ∧
    (∀ ctx args,
       isNative env = false → ctx_filters ctx = Some filters →
       (Callback.fired (_cb this) = false →
        render env this ctx args = ([], Ok tt)) ∧
       (Callback.fired (_cb this) = true →
        ∃ r srcX srcY srcW srcH destX destY destW destH,
          render env this (mkContext (ctx_target ctx) None) args
          = ([OpDrawImage (ctx_target ctx) (SrcImg (_srcImg this))
                srcX srcY srcW srcH destX destY destW destH], Ok tt) ∧
          routine env this filters k srcX srcY srcW srcH = Some r ∧
          ((∃ pre,
              r = (pre, Ok SrcFilterCanvas) ∧
              render env this ctx args
              = (pre ++ [OpDrawImage (ctx_target ctx) SrcFilterCanvas
                           0 0 srcW srcH destX destY destW destH], Ok tt)) ∨
           (k = MultiplyFilter ∧
            ∃ pre e,
              r = (pre, Throw e) ∧
              render env this ctx args = (pre, Throw e))))).
Proof.
  intros Hsome.
  assert (Hk : ∃ k,
    honored filters = Some k ∧
    present filters k = true ∧
    (∀ k', rank k' < rank k → present filters k' = false) ∧
    (∀ srcX srcY srcW srcH,
       routine env this filters k srcX srcY srcW srcH
       = Some (_applyFilters env this filters srcX srcY srcW srcH))).
  { destruct filters as [[la|] [ti|] [mu|] [ne|] [po|]];
      first
        [ exfalso; vm_compute in Hsome; lia
        | eexists; split; [reflexivity |];
          split; [reflexivity |];
          split; [intros []; simpl; intros; first [reflexivity | lia]
                 | reflexivity] ]. }
  destruct Hk as (k & Hhon & Hpres & Hhigher & Hroutine).
  exists k. do 4 (split; [done |]).
  intros ctx args Hnat Hf. split.
  - intros Hfired. unfold render, render_body. by rewrite Hfired.
  - intros Hfired. unfold render, render_body.
    rewrite Hfired, Hnat, Hf. cbn [negb ctx_target ctx_filters].
    cbn [fmap option_fmap option_map].
    destruct (S (length args) <? 9); cbv zeta iota beta.
    all: match goal with
         | |- context [_applyFilters _ _ _ ?sx ?sy ?sw ?sh] =>
           exists (_applyFilters env this filters sx sy sw sh);
           do 8 eexists; split; [reflexivity |];
           split; [apply Hroutine |];
           destruct (_applyFilters_result env this filters sx sy sw sh)
             as [[Hnone _] | (_ & pre & _ & [Hr | (Hmul & e & Hr)])]
         end.
    all: try (exfalso; lia).
    all: rewrite Hr.
    all: first
      [ left; exists pre; split; reflexivity
      | right; split; [congruence |]; exists pre, e; split; reflexivity ].
Qed.

Lemma one_filter_by_precedence_witness :
  ∃ pre,
    _renderFilter image_margins 0 0 80 40 red "source-over"
    = (pre, Ok SrcFilterCanvas) ∧
    render browser image_margins
      (mkContext (CallerCtx 0) (Some filters_three)) [0; 0; 50; 20]%float
    = (pre ++ [OpDrawImage (CallerCtx 0) SrcFilterCanvas 0 0 80 40 5 0 40 20],
       Ok tt).
Proof.
  destruct (one_filter_by_precedence browser image_margins filters_three
              ltac:(vm_compute; lia))
    as (k & Hk & _ & _ & _ & Hrender).
  vm_compute in Hk. injection Hk as <-.
  destruct (Hrender (mkContext (CallerCtx 0) (Some filters_three))
              [0; 0; 50; 20]%float eq_refl eq_refl) as [_ Hfired].
  destruct (Hfired eq_refl)
    as (r & sx & sy & sw & sh & dx & dy & dw & dh & Hplain & Hr & Hcases).
  vm_compute in Hplain. injection Hplain as <- <- <- <- <- <- <- <-.
  cbn [routine filters_three Tint mbind option_bind] in Hr.
  apply (inj Some) in Hr. subst r.
  destruct Hcases as [(pre & Hpre & Hdraw) | [Hmul _]].
  - exists pre. split; [exact Hpre | exact Hdraw].
  - discriminate Hmul.
Defined.

(** ** Drawing before and after the notifier fired *)

(** The claim of C7 fails on an Image whose load failed: its notifier has
    fired, and [render] attempts the blit. *)
Lemma errored_image_is_drawn :
  isError (getImage 0 world_error) = true ∧
  isLoaded (getImage 0 world_error) = false ∧
  render browser (getImage 0 world_error) caller [0; 0; 50; 50]%float
  = ([OpDrawImage (CallerCtx 0) (SrcImg (Some 0)) 0 0 (-1) (-1) 0 0 50 50],
     Ok tt).
Proof. by vm_compute. Qed.

(** C7, amended: a draw call is a no-op, with no canvas call at all, on
    every Image whose completion notifier has not fired, that is, whose
    load has neither completed nor failed.  A failed load sets the error
    flag and fires the notifier; and on the native path, or when the
    context carries no filters, a draw call on an Image whose notifier has
    fired makes exactly one canvas call, the blit from the surface of the
    Image.  So an errored Image is drawn from there. *)
Theorem render_noop_until_notified
    (env : Env) (this : Image) (ctx : Context) (args : list float) :
  (Callback.fired (_cb this) = false → render env this ctx args = ([], Ok tt)) ∧
  (Callback.fired (_cb this) = true →
   isNative env = true ∨ ctx_filters ctx = None →
   ∃ srcX srcY srcW srcH destX destY destW destH,
     render env this ctx args
     = ([OpDrawImage (ctx_target ctx) (SrcImg (_srcImg this))
           srcX srcY srcW srcH destX destY destW destH], Ok tt)) ∧
  (∀ i img w,
     superseded img (_srcImg (getImage i w)) = false →
     isError (getImage i (_onLoad i true img w)) = true ∧
     Callback.fired (_cb (getImage i (_onLoad i true img w))) = true).
Proof.
  split; [| split].
  - intros Hf. unfold render, render_body. by rewrite Hf.
  - intros Hf Hplain. unfold render, render_body. rewrite Hf. cbn [negb].
    replace (if negb (isNative env)
             then _applyFilters env this <$> ctx_filters ctx else None)
      with (@None (float → float → float → float → Draw Source))
      by (destruct Hplain as [-> | ->]; [done | by destruct (negb _)]).
    destruct (S (length args) <? 9); cbv zeta iota beta;
      by repeat eexists.
  - intros i img w Hs. unfold _onLoad. rewrite Hs. split.
    + unfold isError. rewrite notify_isError, getImage_updImage. reflexivity.
    + apply notify_fired.
Qed.

Lemma render_noop_until_notified_witness :
  render browser (getImage 0 world_loading) caller [0; 0; 50; 50]%float
  = ([], Ok tt).
Proof.
  destruct (render_noop_until_notified browser (getImage 0 world_loading)
              caller [0; 0; 50; 50]%float) as [Hnoop _].
  apply Hnoop. reflexivity.
Defined.

(** ** Reading pixels *)

(** When [getImageData] throws. *)
Lemma getImageData_throws env this x y width height :
  (hasDocument env = false →
   getImageData env this x y width height = ([], Throw "Not supported")) ∧
  (hasDocument env = true →
   Js.truthy (map_width (_map this)) && Js.truthy (map_height (_map this))
   = false →
   getImageData env this x y width height = ([], Throw "Not loaded")) ∧
  (hasDocument env = true →
   Js.truthy (map_width (_map this)) && Js.truthy (map_height (_map this))
   = true →
   ∃ ops data, getImageData env this x y width height = (ops, Ok data)).
Proof.
  unfold getImageData. split; [| split].
  - by intros ->.
  - intros -> H. cbn [negb]. rewrite <- negb_andb, H. reflexivity.
  - intros -> H. cbn [negb]. rewrite <- negb_andb, H. cbn [negb].
    unfold render_scratch, render_body.
    destruct (negb (Callback.fired (_cb this))); [by repeat eexists |].
    cbn. by repeat eexists.
Qed.

(** C8 at its failing input: an Image whose surface is still decoding has
    the sentinel [-1] as width and height of its region map; [-1] is truthy,
    so [getImageData] passes the test that throws ['Not loaded'] and returns
    the pixels of a scratch canvas sized [-1] by [-1]. *)
Theorem getImageData_before_load :
  Callback.fired (_cb (getImage 0 world_loading)) = false ∧
  map_width (_map (getImage 0 world_loading)) = (-1)%float ∧
  map_height (_map (getImage 0 world_loading)) = (-1)%float ∧
  getImageData browser (getImage 0 world_loading) None None None None
  = ([OpSize ImgDataCtx (-1) (-1); OpClear ImgDataCtx],
     Ok (mkImageData (-1) (-1))) ∧
  getImageData browser (getImage 0 world_loading)
    (Some 0%float) (Some 0%float) (Some 10%float) (Some 10%float)
  = ([OpSize ImgDataCtx 10 10; OpClear ImgDataCtx], Ok (mkImageData 10 10)).
Proof. by vm_compute. Qed.

(** ** Bounds notifications *)

(** The claim of C9 fails on [setSourceX]: it changes the region map and
    emits nothing. *)
Lemma setSourceX_emits_nothing :
  map_x (_map (getImage 0 (setSourceX 0 5 world_loaded))) = 5%float ∧
  map_x (_map (getImage 0 world_loaded)) = 0%float ∧
  trace (setSourceX 0 5 world_loaded) = trace world_loaded ∧
  emits_of 0 (trace (setSourceX 0 5 world_loaded)) = [].
Proof. by vm_compute. Qed.

(** C9, amended: [setBounds] (and [setMap], the same function) writes the
    rectangle and the margins and emits one [changeBounds]; each of
    [setSourceX], [setSourceY], [setSourceWidth], [setSourceHeight],
    [setMarginTop], [setMarginRight], [setMarginBottom] and [setMarginLeft]
    writes its field of the region map and emits nothing. *)
Theorem bounds_notifications (this : nat) (w : World) :
  (∀ x y width height marginTop marginRight marginBottom marginLeft,
     let w' := setBounds this x y width height marginTop marginRight
                 marginBottom marginLeft w in
     trace w' = trace w ++ [EvEmit this "changeBounds"] ∧
     setMap = setBounds ∧
     _map (getImage this w')
     = mkImageMap (map_url (_map (getImage this w))) x y width height
         (Js.or_else marginTop 0) (Js.or_else marginRight 0)
         (Js.or_else marginBottom 0) (Js.or_else marginLeft 0)
         (map_scale (_map (getImage this w)))) ∧
  (∀ v,
     (trace (setSourceX this v w) = trace w ∧
      map_x (_map (getImage this (setSourceX this v w))) = v) ∧
     (trace (setSourceY this v w) = trace w ∧
      map_y (_map (getImage this (setSourceY this v w))) = v) ∧
     (trace (setSourceWidth this v w) = trace w ∧
      map_width (_map (getImage this (setSourceWidth this v w))) = v) ∧
     (trace (setSourceHeight this v w) = trace w ∧
      map_height (_map (getImage this (setSourceHeight this v w))) = v) ∧
     (trace (setMarginTop this v w) = trace w ∧
      map_marginTop (_map (getImage this (setMarginTop this v w))) = v) ∧
     (trace (setMarginRight this v w) = trace w ∧
      map_marginRight (_map (getImage this (setMarginRight this v w))) = v) ∧
     (trace (setMarginBottom this v w) = trace w ∧
      map_marginBottom (_map (getImage this (setMarginBottom this v w))) = v) ∧
     (trace (setMarginLeft this v w) = trace w ∧
      map_marginLeft (_map (getImage this (setMarginLeft this v w))) = v)).
Proof.
  split.
  - cbv zeta. intros. split; [reflexivity | split; [reflexivity |]].
    unfold setBounds. cbv zeta.
    rewrite getImage_log, getImage_updImage. reflexivity.
  - intros v.
    unfold setSourceX, setSourceY, setSourceWidth, setSourceHeight,
      setMarginTop, setMarginRight, setMarginBottom, setMarginLeft.
    rewrite !getImage_updImage. done.
Qed.

(** ** The size of a shared surface *)

Lemma getSurface_notify s this p w :
  getSurface s (notify this p w) = getSurface s w.
Proof.
  unfold getSurface. by destruct (notify_frame this p w) as [-> _].
Qed.

(** What a completion without error leaves behind when it is not
    superseded. *)
Lemma _onLoad_success this s w mw mh sw sh :
  _srcImg (getImage this w) = Some s →
  resolve_size (_scale (getImage this w)) (_map (getImage this w))
    (getSurface s w) = (mw, mh, sw, sh) →
  let w' := _onLoad this false (Some s) w in
  _map (getImage this w')
  = set_map_url (s_src (getSurface s w))
      (set_map_height mh (set_map_width mw (_map (getImage this w)))) ∧
  s_width (getSurface s w') = sw ∧
  s_height (getSurface s w') = sh ∧
  _isError (getImage this w') = false ∧
  Callback.fired (_cb (getImage this w')) = true ∧
  (∀ j, _srcImg (getImage j w') = _srcImg (getImage j w)).
Proof.
  intros Hsrc Hsize. cbv zeta.
  split; [| split; [| split; [| split; [| split]]]];
    [ | | | | |
      intros j; by destruct (_onLoad_frame this false (Some s) w) as [-> _] ].
  all: unfold _onLoad, superseded; rewrite Hsrc;
    rewrite bool_decide_eq_true_2 by done; cbn [negb]; cbv zeta;
    rewrite getSurface_updImage.
  all: set (w1 := if Js.seq (s_width (getSurface s w)) 0
                  then log EvLogWarn (updImage this (set__isError false) w)
                  else updImage this (set__isError false) w).
  all: assert (H1 : getImage this w1 = set__isError false (getImage this w))
    by (unfold w1; destruct (Js.seq _ 0);
        rewrite ?getImage_log, getImage_updImage; reflexivity).
  all: rewrite H1; cbn [set__isError _scale]; rewrite Hsize.
  - by rewrite notify_map, getImage_updImage, getImage_updSurface, H1.
  - by rewrite getSurface_notify, getSurface_updImage, getSurface_updSurface.
  - by rewrite getSurface_notify, getSurface_updImage, getSurface_updSurface.
  - by rewrite notify_isError, getImage_updImage, getImage_updSurface, H1.
  - apply notify_fired.
Qed.

(** C10: a completion that is not superseded and carries no error, on an
    Image whose scale is not 1 and whose region map had its width or its
    height resolved, infers the missing dimension from the aspect ratio of
    the surface and then writes the width and the height of the region map
    into the surface itself; every Image that references the surface reads
    the overwritten size.  [setImageData] changes nothing. *)
Theorem scaled_load_overwrites_surface (this s : nat) (w : World) :
  _srcImg (getImage this w) = Some s →
  Js.sne (_scale (getImage this w)) 1 = true →
  Js.sne (map_width (_map (getImage this w))) (-1)
  || Js.sne (map_height (_map (getImage this w))) (-1) = true →
  let map := _map (getImage this w) in
  let src := getSurface s w in
  let w' := _onLoad this false (Some s) w in
  let map' := _map (getImage this w') in
  map_width map'
  = (if Js.seq (map_width map) (-1)
     then (s_width src * map_height map / s_height src)%float
     else map_width map) ∧
  map_height map'
  = (if Js.seq (map_height map) (-1)
     then (s_height src * map_width map' / s_width src)%float
     else map_height map) ∧
  s_width (getSurface s w') = map_width map' ∧
  s_height (getSurface s w') = map_height map' ∧
  (∀ j, _srcImg (getImage j w) = Some s →
        getOrigWidth j w' = Some (map_width map') ∧
        getOrigHeight j w' = Some (map_height map')) ∧
  (∀ (A : Type) (data : A) i w0, setImageData i data w0 = w0).
Proof.
  intros Hsrc Hscale Hdim. cbv zeta.
  destruct (resolve_size (_scale (getImage this w)) (_map (getImage this w))
              (getSurface s w)) as [[[mw mh] sw] sh] eqn:Hsize.
  destruct (_onLoad_success this s w mw mh sw sh Hsrc Hsize)
    as (Hmap & Hsw & Hsh & _ & _ & Hrefs).
  unfold resolve_size in Hsize. rewrite Hscale, Hdim in Hsize.
  cbn [andb] in Hsize. cbv zeta in Hsize.
  injection Hsize as <- <- <- <-.
  rewrite Hmap, Hsw, Hsh. cbn [map_width map_height set_map_url
    set_map_height set_map_width].
  do 4 (split; [reflexivity |]). split; [| reflexivity].
  intros j Hj. split.
  - unfold getOrigWidth. rewrite Hrefs, Hj. cbn. by rewrite Hsw.
  - unfold getOrigHeight. rewrite Hrefs, Hj. cbn. by rewrite Hsh.
Qed.

Lemma scaled_load_overwrites_surface_witness :
  s_width (getSurface 0 world_shared) = 100%float ∧
  s_height (getSurface 0 world_shared) = 40%float ∧
  s_width (getSurface 0 (_onLoad 1 false (Some 0) world_shared)) = 50%float ∧
  s_height (getSurface 0 (_onLoad 1 false (Some 0) world_shared)) = 20%float ∧
  getOrigWidth 0 (_onLoad 1 false (Some 0) world_shared) = Some 50%float.
Proof.
  destruct (scaled_load_overwrites_surface 1 0 world_shared
              eq_refl eq_refl eq_refl)
    as (Hw & Hh & Hsw & Hsh & Hshared & _).
  destruct (Hshared 0 eq_refl) as [Hw0 _].
  rewrite Hw0, Hsw, Hsh, Hh, Hw.
  repeat split; reflexivity.
Defined.

(** ** The zero-width failsafe *)

(** A [load] event on a surface whose width is still zero, however the
    call was scheduled, either schedules a poll or fires the notifier of
    the surface with the error status [false]; called by the DOM, with no
    [failCount], it fires at once. *)
Lemma imageOnLoad_zero_width img failCount w :
  Js.truthy (s_width (getSurface img w)) = false →
  imageOnLoad img true failCount w
  = (if Js.le failCount 3
     then setTimeout (mkTimer img true (Js.or_else failCount 0 + 1)%float) w
     else fire_surface img false w) ∧
  dom_event img true w = fire_surface img false w.
Proof.
  intros Hw. unfold dom_event, imageOnLoad. rewrite Hw. done.
Qed.

(** C1 at its failing input: the surface of an Image fires [load] while its
    width is zero.  No poll is scheduled ([undefined <= 3] is false), the
    Image takes the success path: the error flag stays clear, the warning
    is logged and the notifier fires with the Image, not with
    [{NoImage: true}].  A poll that starts from a [failCount] of 0 runs four
    more times and then ends the same way. *)
Theorem zero_width_load_counts_as_success :
  s_width (getSurface 0 world_loading) = 0%float ∧
  timers world_zero_width = [] ∧
  isError (getImage 0 world_zero_width) = false ∧
  isLoaded (getImage 0 world_zero_width) = true ∧
  trace world_zero_width
  = trace world_loading ++ [EvLogWarn; EvFire 0 Loaded []] ∧
  timers (imageOnLoad 0 true (Some 0%float) world_loading)
  = [mkTimer 0 true 1] ∧
  timers (tick (tick (tick (imageOnLoad 0 true (Some 0%float) world_loading))))
  = [mkTimer 0 true 4] ∧
  trace (tick (tick (tick (tick
          (imageOnLoad 0 true (Some 0%float) world_loading)))))
  = trace world_loading ++ [EvLogWarn; EvFire 0 Loaded []] ∧
  isError (getImage 0 (tick (tick (tick (tick
             (imageOnLoad 0 true (Some 0%float) world_loading))))))
  = false.
Proof. by vm_compute. Qed.

(** ** One surface per url *)

Lemma attach_spec this img url w :
  let w' := attach this img url w in
  (s_isCanvas (getSurface img w) = true ∨ is_Some (s___cb (getSurface img w)) →
   ImageCache w' = ImageCache w ∧ decodes (trace w') = decodes (trace w)) ∧
  (s_isCanvas (getSurface img w) = false →
   s___cb (getSurface img w) = None →
   ImageCache w'
   = (if Js.truthy_str url then <[url := img]> (ImageCache w)
      else ImageCache w) ∧
   length (decodes (trace w')) ≤ S (length (decodes (trace w)))) ∧
  s_isCanvas (getSurface img w') = s_isCanvas (getSurface img w) ∧
  (s_isCanvas (getSurface img w) = false →
   is_Some (s___cb (getSurface img w'))).
Proof.
  cbv zeta. unfold attach.
  set (w1 := updImage this (set__srcImg (Some img)) w).
  change (getSurface img w1) with (getSurface img w).
  destruct (s_isCanvas (getSurface img w)) eqn:Hcanvas.
  { destruct (_onLoad_frame this false (Some img) w1)
      as (_ & _ & Hc & Hcache & _ & Hdec).
    rewrite Hc, Hcache, Hdec. repeat split; try done. }
  destruct (s___cb (getSurface img w)) as [cb|] eqn:Hcb.
  - change (getSurface img w1) with (getSurface img w). rewrite Hcb.
    destruct (Callback.run this cb) as [cb' now].
    set (w2 := updSurface img _ w1).
    assert (H2 : ImageCache w2 = ImageCache w ∧ decodes (trace w2) = decodes (trace w)
                 ∧ s_isCanvas (getSurface img w2) = false
                 ∧ is_Some (s___cb (getSurface img w2))).
    { unfold w2. rewrite getSurface_updSurface. cbn.
      change (getSurface img w1) with (getSurface img w). rewrite Hcanvas. eauto. }
    destruct H2 as (Hcache2 & Hdec2 & Hcanvas2 & Hcb2).
    destruct now as [err|].
    + destruct (_onLoad_frame this err (Some img) w2)
        as (_ & Hk & Hc & Hcache & _ & Hdec).
      rewrite Hk, Hc, Hcache, Hdec. repeat split; try done.
    + repeat split; try done.
  - set (w2 := updSurface img _ w1).
    set (w3 := if Js.truthy_str url then _ else w2).
    set (w4 := if negb _ && _ then _ else w3).
    assert (H4 : s___cb (getSurface img w4) = Some Callback.new
                 ∧ s_isCanvas (getSurface img w4) = false
                 ∧ ImageCache w4 = (if Js.truthy_str url then <[url := img]> (ImageCache w)
                                    else ImageCache w)
                 ∧ length (decodes (trace w4)) ≤ S (length (decodes (trace w)))).
    { unfold w4, w3, w2.
      destruct (Js.truthy_str url); destruct (negb _ && _);
        repeat first
          [ rewrite getSurface_log | rewrite getSurface_updImage
          | rewrite getSurface_updSurface
          | progress change (getSurface ?s (set_ImageCache ?c ?w0))
              with (getSurface s w0)
          | progress cbn ];
        change (getSurface img w1) with (getSurface img w);
        rewrite ?Hcanvas, ?decodes_app, ?length_app; cbn;
        repeat split; try done; unfold decodes; lia. }
    destruct H4 as (Hcb4 & Hcanvas4 & Hcache4 & Hdec4).
    rewrite Hcb4. cbn [Callback.run Callback.new Callback.fired_].
    rewrite getSurface_updSurface. cbn. rewrite Hcanvas4.
    split; [intros [? | [? ?]]; done | repeat split; try done].
Qed.


Lemma new_Image_blank w :
  getSurface (new_Image w).1 (new_Image w).2 = blank_surface ∧
  images (new_Image w).2 = images w ∧
  ImageCache (new_Image w).2 = ImageCache w ∧
  trace (new_Image w).2 = trace w.
Proof.
  unfold new_Image, getSurface. cbn. by rewrite lookup_total_insert_eq.
Qed.

Lemma _setSrcImg_other env j this img url forceReload w :
  this ≠ j →
  getImage j (_setSrcImg env this img url forceReload w) = getImage j w.
Proof.
  intros Hne.
  destruct (found_source_cases img url forceReload
              (updImage this (λ i, set__cb (Callback.reset (_cb i)) i) w))
    as [Hfound | Hfound].
  { rewrite _setSrcImg_member by done.
    by rewrite getImage_log, getImage_updImage_ne. }
  rewrite _setSrcImg_phases by done. cbv zeta.
  destruct (lookup_source _ _ _ _ _) as [img' url'].
  set (w0 := updImage this _ w).
  assert (H0 : getImage j (release env img' url' forceReload w0) = getImage j w).
  { unfold getImage.
    destruct (release_images env img' url' forceReload w0) as [-> _].
    by apply getImage_updImage_ne. }
  destruct img' as [i|].
  - by rewrite attach_other.
  - destruct (new_Image _) as [i w1] eqn:Hnew.
    rewrite attach_other by done.
    pose proof (new_Image_blank (release env None url' forceReload w0))
      as (_ & Himg & _).
    rewrite Hnew in Himg. cbn in Himg. unfold getImage in *.
    by rewrite Himg.
Qed.



(** ** What may happen between two constructions *)




























(** * Further properties of the code *)

(** ** Completions of the current surface *)

Lemma _onLoad_error this img w :
  superseded img (_srcImg (getImage this w)) = false →
  _onLoad this true img w
  = notify this NoImage
      (updImage this (set__isError true)
         (log (EvLogError (map_url (_map (getImage this w)))) w)).
Proof. intros Hs. unfold _onLoad. by rewrite Hs. Qed.

Lemma notify_unfired this p w :
  Callback.fired (_cb (getImage this w)) = false →
  notify this p w
  = log (EvFire this p (Callback.run_ (_cb (getImage this w))))
      (updImage this (set__cb (Callback.mk true (Some p) [])) w).
Proof.
  intros Hf. unfold notify, Callback.fire. unfold Callback.fired in *.
  by rewrite Hf.
Qed.

Lemma notify_already_fired this p w :
  Callback.fired (_cb (getImage this w)) = true → notify this p w = w.
Proof.
  intros Hf. unfold notify, Callback.fire. unfold Callback.fired in *.
  by rewrite Hf.
Qed.

(** X1: a completion with an error that is not superseded sets the error
    flag and leaves the Image not loaded, and changes neither the region
    map, nor any surface, nor the image cache; when the notifier had not
    fired it logs the error with the url of the map and fires the notifier
    once with [{NoImage: true}], to the subscribers registered so far. *)
Theorem failed_load_keeps_map_and_surfaces (this : nat) (img : option nat)
    (w : World) :
  superseded img (_srcImg (getImage this w)) = false →
  let w' := _onLoad this true img w in
  _map (getImage this w') = _map (getImage this w) ∧
  heap w' = heap w ∧
  ImageCache w' = ImageCache w ∧
  isError (getImage this w') = true ∧
  isLoaded (getImage this w') = false ∧
  (Callback.fired (_cb (getImage this w)) = false →
   trace w'
   = trace w ++ [EvLogError (map_url (_map (getImage this w)));
                 EvFire this NoImage (Callback.run_ (_cb (getImage this w)))]).
Proof.
  intros Hs. cbv zeta. rewrite _onLoad_error by done.
  set (w1 := updImage this (set__isError true) _).
  destruct (notify_frame this NoImage w1) as (Hheap & Hcache & _).
  assert (Herr : isError (getImage this (notify this NoImage w1)) = true).
  { unfold isError. rewrite notify_isError. unfold w1.
    by rewrite getImage_updImage. }
  repeat split.
  - rewrite notify_map. unfold w1. by rewrite getImage_updImage.
  - by rewrite Hheap.
  - by rewrite Hcache.
  - exact Herr.
  - unfold isLoaded. unfold isError in Herr. by rewrite Herr.
  - intros Hf. rewrite notify_unfired.
    + unfold w1. rewrite getImage_updImage, getImage_log. cbn.
      by rewrite <- app_assoc.
    + unfold w1. by rewrite getImage_updImage, getImage_log.
Qed.

(** X2: a completion without error on an Image whose scale is 1, or whose
    region map has neither width nor height resolved, fills the unresolved
    dimensions of the map from the surface, keeps the resolved ones and
    every other field, sets the url of the map to the [src] of the surface,
    and leaves the size of the surface as it was; the Image is loaded. *)
Theorem unscaled_load_fills_map_only (this s : nat) (w : World) :
  _srcImg (getImage this w) = Some s →
  Js.sne (_scale (getImage this w)) 1
  && (Js.sne (map_width (_map (getImage this w))) (-1)
      || Js.sne (map_height (_map (getImage this w))) (-1)) = false →
  let map := _map (getImage this w) in
  let src := getSurface s w in
  let w' := _onLoad this false (Some s) w in
  _map (getImage this w')
  = mkImageMap (s_src src) (map_x map) (map_y map)
      (if Js.seq (map_width map) (-1) then s_width src else map_width map)
      (if Js.seq (map_height map) (-1) then s_height src else map_height map)
      (map_marginTop map) (map_marginRight map) (map_marginBottom map)
      (map_marginLeft map) (map_scale map) ∧
  s_width (getSurface s w') = s_width src ∧
  s_height (getSurface s w') = s_height src ∧
  isError (getImage this w') = false ∧
  isLoaded (getImage this w') = true.
Proof.
  intros Hsrc Hplain. cbv zeta.
  destruct (resolve_size (_scale (getImage this w)) (_map (getImage this w))
              (getSurface s w)) as [[[mw mh] sw] sh] eqn:Hsize.
  destruct (_onLoad_success this s w mw mh sw sh Hsrc Hsize)
    as (Hmap & Hsw & Hsh & Herr & Hfired & _).
  unfold resolve_size in Hsize. rewrite Hplain in Hsize.
  injection Hsize as <- <- <- <-.
  unfold isLoaded, isError. rewrite Hmap, Hsw, Hsh, Herr, Hfired.
  repeat split.
Qed.

(** ** The notifier fires once per attempt *)

Ltac norm_trace :=
  repeat first
    [ progress change (trace (updImage ?a ?b ?c)) with (trace c)
    | progress change (trace (updSurface ?a ?b ?c)) with (trace c)
    | progress change (trace (log ?e ?c)) with (trace c ++ [e]) ];
  unfold fires_of; rewrite ?List.filter_app; cbn [List.filter is_fire_of app];
  rewrite ?app_nil_r.

Lemma _onLoad_after_fired i this err img w :
  Callback.fired (_cb (getImage i w)) = true →
  Callback.fired (_cb (getImage i (_onLoad this err img w))) = true ∧
  fires_of i (trace (_onLoad this err img w)) = fires_of i (trace w).
Proof.
  intros Hf. destruct (decide (this = i)) as [->|Hne].
  2: { destruct (_onLoad_other i this err img w Hne) as [-> ->]. done. }
  unfold _onLoad.
  destruct (superseded img (_srcImg (getImage i w))); [done |].
  destruct err.
  - rewrite notify_already_fired
      by (by rewrite getImage_updImage, getImage_log).
    rewrite getImage_updImage, getImage_log. split; [done |].
    by norm_trace.
  - destruct (_srcImg (getImage i w)) as [s|].
    + destruct (resolve_size _ _ _) as [[[mw mh] sw] sh].
      set (w1 := if Js.seq _ 0 then _ else _).
      assert (H1 : Callback.fired (_cb (getImage i w1)) = true ∧
                   fires_of i (trace w1) = fires_of i (trace w)).
      { unfold w1. destruct (Js.seq _ 0);
          rewrite ?getImage_log, getImage_updImage; split; try done.
        by norm_trace. }
      destruct H1 as [Hf1 Htr1].
      rewrite notify_already_fired
        by (by rewrite getImage_updImage, getImage_updSurface).
      by rewrite getImage_updImage, getImage_updSurface.
    + by rewrite getImage_updImage.
Qed.

Lemma deliver_after_fired i A err subs : ∀ w,
  Callback.fired (_cb (getImage i w)) = true →
  Callback.fired
    (_cb (getImage i (foldl (λ w0 j, _onLoad j err (Some A) w0) w subs)))
  = true ∧
  fires_of i (trace (foldl (λ w0 j, _onLoad j err (Some A) w0) w subs))
  = fires_of i (trace w).
Proof.
  induction subs as [|j subs IH]; intros w Hf; [done |]. cbn.
  destruct (_onLoad_after_fired i j err (Some A) w Hf) as [Hf' Htr'].
  destruct (IH _ Hf') as [-> ->]. done.
Qed.

Lemma _onLoad_fires_once this err s w :
  _srcImg (getImage this w) = Some s →
  Callback.fired (_cb (getImage this w)) = false →
  fires_of this (trace (_onLoad this err (Some s) w))
  = fires_of this (trace w)
    ++ [EvFire this (if err then NoImage else Loaded)
          (Callback.run_ (_cb (getImage this w)))].
Proof.
  intros Hsrc Hf. unfold _onLoad, superseded. rewrite Hsrc.
  rewrite bool_decide_eq_true_2 by done. cbn [negb].
  destruct err.
  - rewrite notify_unfired by (by rewrite getImage_updImage, getImage_log).
    rewrite getImage_updImage, getImage_log. norm_trace.
    by rewrite bool_decide_eq_true_2.
  - destruct (resolve_size _ _ _) as [[[mw mh] sw] sh].
    set (w1 := if Js.seq _ 0 then _ else _).
    assert (H1 : _cb (getImage this w1) = _cb (getImage this w) ∧
                 fires_of this (trace w1) = fires_of this (trace w)).
    { unfold w1. destruct (Js.seq _ 0);
        rewrite ?getImage_log, getImage_updImage; split; try done.
      by norm_trace. }
    destruct H1 as [Hcb1 Htr1].
    rewrite notify_unfired
      by (by rewrite getImage_updImage, getImage_updSurface; cbn;
          rewrite Hcb1).
    rewrite getImage_updImage, getImage_updSurface. cbn [set__map _cb].
    rewrite Hcb1. unfold fires_of in Htr1. norm_trace.
    rewrite bool_decide_eq_true_2 by done. by rewrite Htr1.
Qed.

(** X3: the completion of the current surface fires the notifier of an
    Image that has not fired yet exactly once, with [{NoImage: true}] on
    error and with the Image otherwise; once it has fired, no completion,
    event or timer of any surface fires it again. *)
Theorem notifier_fires_once_per_attempt (this : nat) (w : World) :
  (∀ s err,
     _srcImg (getImage this w) = Some s →
     Callback.fired (_cb (getImage this w)) = false →
     fires_of this (trace (_onLoad this err (Some s) w))
     = fires_of this (trace w)
       ++ [EvFire this (if err then NoImage else Loaded)
             (Callback.run_ (_cb (getImage this w)))]) ∧
  (Callback.fired (_cb (getImage this w)) = true →
   (∀ j err img,
      fires_of this (trace (_onLoad j err img w)) = fires_of this (trace w)) ∧
   (∀ A err,
      fires_of this (trace (fire_surface A err w)) = fires_of this (trace w) ∧
      Callback.fired (_cb (getImage this (fire_surface A err w))) = true) ∧
   (∀ A success failCount,
      fires_of this (trace (imageOnLoad A success failCount w))
      = fires_of this (trace w))).
Proof.
  split.
  - intros s err Hsrc Hf. by apply _onLoad_fires_once.
  - intros Hf.
    assert (Hfire : ∀ A err,
      fires_of this (trace (fire_surface A err w)) = fires_of this (trace w) ∧
      Callback.fired (_cb (getImage this (fire_surface A err w))) = true).
    { intros A err. unfold fire_surface.
      destruct (s___cb (getSurface A w)) as [cb|]; [| done].
      destruct (Callback.fire err cb) as [cb' subs].
      match goal with
      | |- context [foldl _ ?w0 subs] =>
        destruct (deliver_after_fired this A err subs w0 Hf) as [-> ->]
      end.
      done. }
    split; [| split].
    + intros j err img.
      by destruct (_onLoad_after_fired this j err img w Hf) as [_ ->].
    + exact Hfire.
    + intros A success failCount. unfold imageOnLoad.
      repeat case_match; try done; apply Hfire.
Qed.

Lemma notifier_fires_once_per_attempt_witness :
  fires_of 0 (trace (dom_event 0 false world_loaded))
  = fires_of 0 (trace world_loaded).
Proof.
  destruct (notifier_fires_once_per_attempt 0 world_loaded) as [_ Hafter].
  destruct (Hafter eq_refl) as (_ & _ & Hev).
  exact (Hev 0 false None).
Defined.

(** ** From the event on the surface to the Image *)

Lemma _onLoad_completes this err s w :
  _srcImg (getImage this w) = Some s →
  _isError (getImage this (_onLoad this err (Some s) w)) = err ∧
  Callback.fired (_cb (getImage this (_onLoad this err (Some s) w))) = true.
Proof.
  intros Hsrc. destruct err.
  - rewrite _onLoad_error
      by (unfold superseded; rewrite Hsrc; by rewrite bool_decide_eq_true_2).
    split; [| apply notify_fired].
    by rewrite notify_isError, getImage_updImage.
  - destruct (resolve_size (_scale (getImage this w)) (_map (getImage this w))
                (getSurface s w)) as [[[mw mh] sw] sh] eqn:Hsize.
    by destruct (_onLoad_success this s w mw mh sw sh Hsrc Hsize)
      as (_ & _ & _ & He & Hf & _).
Qed.

Lemma deliver_subscribed this A err subs : ∀ w,
  _srcImg (getImage this w) = Some A →
  this ∈ subs ∨
  (_isError (getImage this w) = err ∧
   Callback.fired (_cb (getImage this w)) = true) →
  let w' := foldl (λ w0 j, _onLoad j err (Some A) w0) w subs in
  _isError (getImage this w') = err ∧
  Callback.fired (_cb (getImage this w')) = true.
Proof.
  induction subs as [|j subs IH]; intros w Hsrc Hin; cbn.
  - destruct Hin as [Hin | Hdone]; [| done]. by apply elem_of_nil in Hin.
  - apply IH.
    + destruct (_onLoad_frame j err (Some A) w) as [-> _]. exact Hsrc.
    + destruct (decide (j = this)) as [->|Hne].
      * right. by apply _onLoad_completes.
      * destruct (_onLoad_other this j err (Some A) w Hne) as [-> _].
        destruct Hin as [Hin | Hdone]; [| by right].
        apply elem_of_cons in Hin as [-> | Hin]; [done | by left].
Qed.

(** X4: when the notifier of a surface has not fired and an Image that
    references the surface is among its subscribers, firing it with an
    error status leaves the Image with that status: an [error] event makes
    it errored and not loaded, a [load] event on a surface with a non-zero
    width makes it loaded, whatever other Images wait on the surface. *)
Theorem completion_reaches_subscribed_image
    (this A : nat) (cb : Callback.t bool nat) (w : World) :
  _srcImg (getImage this w) = Some A →
  s___cb (getSurface A w) = Some cb →
  Callback.fired cb = false →
  this ∈ Callback.run_ cb →
  (∀ err,
     isError (getImage this (fire_surface A err w)) = err ∧
     isLoaded (getImage this (fire_surface A err w)) = negb err) ∧
  (isError (getImage this (dom_event A false w)) = true ∧
   isLoaded (getImage this (dom_event A false w)) = false) ∧
  (Js.truthy (s_width (getSurface A w)) = true →
   isError (getImage this (dom_event A true w)) = false ∧
   isLoaded (getImage this (dom_event A true w)) = true).
Proof.
  intros Hsrc Hcb Hf Hin.
  assert (Hfire : ∀ err,
    isError (getImage this (fire_surface A err w)) = err ∧
    isLoaded (getImage this (fire_surface A err w)) = negb err).
  { intros err. unfold fire_surface. rewrite Hcb.
    unfold Callback.fire. unfold Callback.fired in Hf. rewrite Hf.
    match goal with
    | |- context [foldl _ ?w0 _] =>
      destruct (deliver_subscribed this A err (Callback.run_ cb) w0 Hsrc
                  (or_introl Hin)) as [He Hd]
    end.
    cbv zeta in He, Hd. unfold isLoaded, isError. by rewrite He, Hd, andb_true_r. }
  split; [exact Hfire |]. split.
  - exact (Hfire true).
  - intros Hw. unfold dom_event, imageOnLoad. rewrite Hw. exact (Hfire false).
Qed.

Lemma completion_reaches_subscribed_image_witness :
  isLoaded (getImage 0 (dom_event 0 false world_loading)) = false ∧
  isError (getImage 0 (dom_event 0 false world_loading)) = true.
Proof.
  destruct (completion_reaches_subscribed_image 0 0
              (Callback.mk false None [0]) world_loading
              eq_refl eq_refl eq_refl ltac:(apply list_elem_of_singleton; reflexivity))
    as (_ & [He Hl] & _).
  split; [exact Hl | exact He].
Defined.

(** ** Sources that are complete already *)

Lemma lookup_source_explicit env B url forceReload w :
  lookup_source env (Some B) url forceReload w = (Some B, url).
Proof. unfold lookup_source, found_source. by repeat case_match. Qed.

Lemma lookup_source_hit env url s w :
  Js.truthy_str url = true →
  ImageCache w !! url = Some s →
  lookup_source env None url false w = (Some s, url).
Proof.
  intros Hurl Hhit. unfold lookup_source, found_source, read_ImageCache.
  rewrite Hurl, Hhit. cbn. by repeat case_match.
Qed.

(** X5: [_setSrcImg] with a canvas as source completes at once: the Image
    references the canvas and is loaded on return, and nothing is cached,
    scheduled or decoded, nor is a notifier attached to the canvas. *)
Theorem canvas_source_is_ready
    (env : Env) (this c : nat) (url : string) (forceReload : bool)
    (w : World) :
  s_isCanvas (getSurface c w) = true →
  let w' := _setSrcImg env this (Some c) url forceReload w in
  _srcImg (getImage this w') = Some c ∧
  isLoaded (getImage this w') = true ∧
  ImageCache w' = ImageCache w ∧
  timers w' = timers w ∧
  decodes (trace w') = decodes (trace w) ∧
  s___cb (getSurface c w') = s___cb (getSurface c w).
Proof.
  intros Hcanvas. cbv zeta.
  rewrite _setSrcImg_phases by apply found_source_explicit. cbv zeta.
  rewrite lookup_source_explicit.
  set (w0 := updImage this _ w).
  destruct (release_images env (Some c) url forceReload w0)
    as (Himg & Hheap & Hcache & Hdec).
  assert (Htimers : timers (release env (Some c) url forceReload w0) = timers w).
  { unfold release. by repeat case_match. }
  set (w1 := release env (Some c) url forceReload w0) in *.
  assert (Hsurf : getSurface c w1 = getSurface c w)
    by (unfold getSurface; by rewrite Hheap).
  unfold attach.
  set (w2 := updImage this (set__srcImg (Some c)) w1).
  change (getSurface c w2) with (getSurface c w1). rewrite Hsurf, Hcanvas.
  assert (Hsrc : _srcImg (getImage this w2) = Some c)
    by (unfold w2; by rewrite getImage_updImage).
  destruct (_onLoad_completes this false c w2 Hsrc) as [He Hf].
  destruct (_onLoad_frame this false (Some c) w2)
    as (Hs & Hk & _ & Hc & Ht & Hd).
  rewrite Hs, Hk, Hc, Ht, Hd. unfold isLoaded. rewrite He, Hf.
  change (getSurface c w2) with (getSurface c w1). rewrite Hsurf.
  repeat split; try done.
Qed.

Lemma canvas_source_is_ready_witness :
  isLoaded (getImage 0 (_setSrcImg browser 0 (Some 7) "" false world_canvas))
  = true.
Proof.
  assert (H : s_isCanvas (getSurface 7 world_canvas) = true)
    by (vm_compute; reflexivity).
  destruct (canvas_source_is_ready browser 0 7 "" false world_canvas H)
    as (_ & Hl & _).
  exact Hl.
Defined.

(** X6: when the surface that [_setSrcImg] settles on, passed in or found
    in the image cache, has a notifier that fired already, the Image
    completes before [_setSrcImg] returns, with the status the surface
    completed with: its notifier fires once, the cache is unchanged and no
    decode is started. *)
Theorem completed_surface_completes_at_once
    (env : Env) (this s : nat) (img : option nat) (url : string)
    (cb : Callback.t bool nat) (err : bool) (w : World) :
  img = Some s ∨
  (img = None ∧ Js.truthy_str url = true ∧ ImageCache w !! url = Some s) →
  s_isCanvas (getSurface s w) = false →
  s___cb (getSurface s w) = Some cb →
  Callback.fired cb = true →
  Callback.args_ cb = Some err →
  let w' := _setSrcImg env this img url false w in
  _srcImg (getImage this w') = Some s ∧
  isError (getImage this w') = err ∧
  isLoaded (getImage this w') = negb err ∧
  fires_of this (trace w')
  = fires_of this (trace w)
    ++ [EvFire this (if err then NoImage else Loaded)
          (Callback.run_ (_cb (getImage this w)))] ∧
  ImageCache w' = ImageCache w ∧
  decodes (trace w') = decodes (trace w).
Proof.
  intros Hfrom Hcanvas Hcb Hfired Hargs. cbv zeta.
  rewrite _setSrcImg_phases
    by (destruct Hfrom as [-> | (-> & _ & Hhit)];
        [apply found_source_explicit | by eapply found_source_hit]).
  cbv zeta.
  set (w0 := updImage this _ w).
  assert (Hl : lookup_source env img url false w0 = (Some s, url)).
  { destruct Hfrom as [-> | (-> & Hurl & Hhit)].
    - apply lookup_source_explicit.
    - by apply lookup_source_hit. }
  rewrite Hl. change (release env (Some s) url false w0) with w0.
  unfold attach.
  set (w1 := updImage this (set__srcImg (Some s)) w0).
  change (getSurface s w1) with (getSurface s w).
  rewrite Hcanvas, Hcb.
  change (getSurface s w1) with (getSurface s w). rewrite Hcb.
  unfold Callback.run. unfold Callback.fired in Hfired.
  rewrite Hfired, Hargs.
  set (w2 := updSurface s _ w1).
  assert (Hsrc : _srcImg (getImage this w2) = Some s).
  { unfold w2, w1. by rewrite getImage_updSurface, getImage_updImage. }
  assert (Hcb2 : _cb (getImage this w2) = Callback.reset (_cb (getImage this w))).
  { unfold w2, w1, w0.
    by rewrite getImage_updSurface, !getImage_updImage. }
  destruct (_onLoad_completes this err s w2 Hsrc) as [He Hf].
  destruct (_onLoad_frame this err (Some s) w2)
    as (Hs & _ & _ & Hc & _ & Hd).
  rewrite Hs, Hc, Hd, _onLoad_fires_once by (done || by rewrite Hcb2).
  unfold isLoaded, isError. rewrite He, Hf, Hcb2, andb_true_r.
  repeat split; done.
Qed.

Lemma completed_surface_completes_at_once_witness :
  isLoaded (getImage 1 (init browser 1 (opts_url "a.png") world_loaded)) = true.
Proof.
  destruct (completed_surface_completes_at_once browser 1 0 None "a.png"
              (Callback.mk true (Some false) []) false
              (set_images
                 (<[1 := mkImage Callback.new
                           (plain_loader
                              (ImageMap_init 0 0 (-1) (-1) 0 0 0 0 "a.png")
                              (Some "a.png") None None None None)
                           "a.png" 1 false None]> (images world_loaded))
                 world_loaded)
              ltac:(right; repeat split; reflexivity)
              eq_refl eq_refl eq_refl eq_refl)
    as (_ & _ & Hl & _).
  exact Hl.
Defined.

(** ** Fresh surfaces *)

Ltac norm_surface :=
  repeat first
    [ rewrite getSurface_log | rewrite getSurface_updImage
    | rewrite getSurface_updSurface
    | progress change (getSurface ?s (set_ImageCache ?c ?w0))
        with (getSurface s w0)
    | progress cbn [s___cb s_isCanvas s_src s_width s_height s_destroy] ].

Lemma attach_blank this s url w :
  getSurface s w = blank_surface →
  let w' := attach this s url w in
  _srcImg (getImage this w') = Some s ∧
  _cb (getImage this w') = _cb (getImage this w) ∧
  _isError (getImage this w') = _isError (getImage this w) ∧
  s___cb (getSurface s w') = Some (Callback.mk false None [this]) ∧
  ImageCache w'
  = (if Js.truthy_str url then <[url := s]> (ImageCache w) else ImageCache w) ∧
  trace w'
  = trace w ++ (if Js.truthy_str url then [EvDecode s url] else []) ∧
  timers w' = timers w.
Proof.
  intros Hblank. cbv zeta. unfold attach.
  set (w1 := updImage this (set__srcImg (Some s)) w).
  change (getSurface s w1) with (getSurface s w). rewrite Hblank.
  cbn [s_isCanvas s___cb blank_surface].
  destruct (Js.truthy_str url) eqn:Hurl.
  - norm_surface. change (getSurface s w1) with (getSurface s w).
    rewrite Hblank. cbn [blank_surface s_src Js.truthy_str negb andb].
    norm_surface. cbn [Callback.run Callback.new Callback.fired_ Callback.run_ app].
    norm_surface. unfold w1.
    rewrite getImage_updSurface, getImage_log, getImage_updImage,
      getImage_updSurface.
    change (getImage this (set_ImageCache ?c ?w0)) with (getImage this w0).
    rewrite getImage_updSurface, getImage_updImage.
    repeat split.
  - rewrite andb_false_r. norm_surface.
    cbn [Callback.run Callback.new Callback.fired_ Callback.run_ app].
    norm_surface. unfold w1.
    rewrite !getImage_updSurface, getImage_updImage.
    repeat split. cbn. by rewrite app_nil_r.
Qed.

Lemma new_Image_fresh w :
  heap w !! (new_Image w).1 = None ∧
  getSurface (new_Image w).1 (new_Image w).2 = blank_surface ∧
  images (new_Image w).2 = images w ∧
  ImageCache (new_Image w).2 = ImageCache w ∧
  trace (new_Image w).2 = trace w ∧
  timers (new_Image w).2 = timers w.
Proof.
  split.
  - cbn. apply not_elem_of_dom. apply is_fresh.
  - destruct (new_Image_blank w) as (? & ? & ? & ?). done.
Qed.



Lemma _setSrcImg_miss env this url w :
  Js.truthy_str url = false ∨ ImageCache w !! url = None →
  Object_prototype_member url = false →
  preloaded env url = None →
  alternate_url env url = false →
  let s := fresh (dom (heap w)) in
  let w' := _setSrcImg env this None url false w in
  heap w !! s = None ∧
  _srcImg (getImage this w') = Some s ∧
  Callback.fired (_cb (getImage this w')) = false ∧
  _isError (getImage this w') = _isError (getImage this w) ∧
  ImageCache w'
  = (if Js.truthy_str url then <[url := s]> (ImageCache w) else ImageCache w) ∧
  trace w'
  = trace w ++ (if Js.truthy_str url then [EvDecode s url] else []) ∧
  timers w' = timers w.
Proof.
  intros Hmiss Hown Hpre Halt. cbv zeta.
  rewrite _setSrcImg_phases by (by apply found_source_own). cbv zeta.
  set (w0 := updImage this _ w).
  assert (Hl : lookup_source env None url false w0 = (None, url)).
  { unfold lookup_source, found_source, read_ImageCache, preloaded,
      alternate_url in *.
    change (ImageCache w0) with (ImageCache w). rewrite Hown.
    assert (Hc : match (if Js.truthy_str url && negb false
                        then match ImageCache w !! url with
                             | Some img => Object img
                             | None => Nothing
                             end
                        else Nothing) with
                 | Object i => Some i
                 | _ => None
                 end = None).
    { destruct Hmiss as [-> | ->]; [done | by destruct (_ && _)]. }
    rewrite Hc. destruct (Image_get env) as [get|]; [| done].
    destruct (get url); try done. by rewrite Halt. }
  rewrite Hl. change (release env None url false w0) with w0.
  pose proof (new_Image_fresh w0)
    as (Hfresh & Hblank & Himg' & Hcache' & Htrace' & Htimers').
  destruct (new_Image w0) as [s w2] eqn:Hnew. cbn [fst snd] in *.
  assert (Hs : s = fresh (dom (heap w)))
    by (unfold new_Image in Hnew; by injection Hnew as <- _).
  subst s.
  destruct (attach_blank this (fresh (dom (heap w))) url w2 Hblank)
    as (Hsrc & Hcb & He & _ & Hc & Ht & Htm).
  rewrite Hsrc, Hcb, He, Hc, Ht, Htm, Hcache', Htrace', Htimers'.
  unfold getImage. rewrite Himg'. fold (getImage this w0). unfold w0.
  rewrite getImage_updImage.
  repeat split; done.
Qed.



(** X9: an Image constructed without source, without forced reload and with
    an empty resolved url gets a new blank surface and nothing else
    happens: nothing is cached, decoded, logged or scheduled, and the Image
    is neither loaded nor errored. *)
Theorem image_without_url_stays_pending
    (env : Env) (this : nat) (opts : Opts) (w : World) :
  o_srcImage opts = None →
  o_forceReload opts = false →
  resolved_url env opts = "" →
  preloaded env "" = None →
  alternate_url env "" = false →
  let w' := init env this opts w in
  heap w !! fresh (dom (heap w)) = None ∧
  _srcImg (getImage this w') = Some (fresh (dom (heap w))) ∧
  isLoaded (getImage this w') = false ∧
  isError (getImage this w') = false ∧
  ImageCache w' = ImageCache w ∧
  trace w' = trace w ∧
  timers w' = timers w.
Proof.
  intros Hsrc Hfr Hurl Hpre Halt. cbv zeta. unfold init.
  fold (resolved_url env opts) in *.
  change (map_url (updateImageMap env _ (o_url opts) (o_sourceX opts)
            (o_sourceY opts) (o_sourceW opts) (o_sourceH opts)))
    with (resolved_url env opts).
  rewrite Hsrc, Hfr, Hurl.
  match goal with
  | |- context [_setSrcImg env this None "" false ?w0] =>
    destruct (_setSrcImg_miss env this "" w0 (or_introl eq_refl) eq_refl
                Hpre Halt)
      as (Hfresh & Hs & Hf & He & Hc & Ht & Htm)
  end.
  cbv zeta in *. cbn [Js.truthy_str] in *.
  rewrite Hs, Hc, Ht, Htm. unfold isLoaded, isError. rewrite Hf, He.
  repeat split; try done.
  - apply andb_false_r.
  - unfold getImage. cbn. by rewrite lookup_total_insert_eq.
  - cbn. apply app_nil_r.
Qed.

Lemma image_without_url_stays_pending_witness :
  _srcImg (getImage 0 (init browser 0 (opts_url "") empty_world)) = Some 0 ∧
  trace (init browser 0 (opts_url "") empty_world) = [].
Proof.
  destruct (image_without_url_stays_pending browser 0 (opts_url "")
              empty_world eq_refl eq_refl eq_refl eq_refl eq_refl)
    as (_ & Hs & _ & _ & _ & Ht & _).
  rewrite Hs, Ht. split; by vm_compute.
Defined.

(** ** The image cache *)

Lemma _setSrcImg_cache env this img url forceReload w :
  ImageCache (_setSrcImg env this img url forceReload w) = ImageCache w ∨
  ∃ url' s,
    Js.truthy_str url' = true ∧
    _srcImg (getImage this (_setSrcImg env this img url forceReload w))
    = Some s ∧
    ImageCache (_setSrcImg env this img url forceReload w)
    = <[url' := s]> (ImageCache w).
Proof.
  destruct (found_source_cases img url forceReload
              (updImage this (λ i, set__cb (Callback.reset (_cb i)) i) w))
    as [Hfound | Hfound].
  { left. by rewrite _setSrcImg_member. }
  rewrite _setSrcImg_phases by done. cbv zeta.
  set (w0 := updImage this _ w).
  destruct (lookup_source env img url forceReload w0) as [img' url'].
  destruct (release_images env img' url' forceReload w0)
    as (_ & _ & Hcache & _).
  set (w1 := release env img' url' forceReload w0) in *.
  assert (Hattach : ∀ s w2, ImageCache w2 = ImageCache w →
    ImageCache (attach this s url' w2) = ImageCache w ∨
    ∃ u s0, Js.truthy_str u = true ∧
      _srcImg (getImage this (attach this s url' w2)) = Some s0 ∧
      ImageCache (attach this s url' w2) = <[u := s0]> (ImageCache w)).
  { intros s w2 Hc2.
    destruct (attach_spec this s url' w2) as (Hsame & Hnew & _ & _).
    destruct (s_isCanvas (getSurface s w2)) eqn:Hcanvas.
    { left. destruct Hsame as [-> _]; [by left | done]. }
    destruct (s___cb (getSurface s w2)) as [cb|] eqn:Hcb.
    { left. destruct Hsame as [-> _]; [by right | done]. }
    destruct (Hnew eq_refl eq_refl) as [-> _].
    destruct (Js.truthy_str url') eqn:Hurl; [| by left].
    right. exists url', s. rewrite attach_srcImg, Hc2. done. }
  destruct img' as [s|].
  - apply Hattach. exact Hcache.
  - destruct (new_Image_blank w1) as (_ & _ & Hc & _).
    destruct (new_Image w1) as [s w2]. cbn [fst snd] in Hc.
    apply Hattach. by rewrite Hc.
Qed.

Lemma deliver_cache A err subs : ∀ w,
  ImageCache (foldl (λ w0 j, _onLoad j err (Some A) w0) w subs) = ImageCache w.
Proof.
  induction subs as [|j subs IH]; intros w; [done |]. cbn.
  rewrite IH. by destruct (_onLoad_frame j err (Some A) w) as (_ & _ & _ & -> & _).
Qed.

(** X10: an entry of the image cache survives every [_setSrcImg] (also a
    forced reload), construction and [setURL], possibly pointing at another
    surface afterwards; events, timers and completions leave the whole
    cache as it is; only [__clearCache__] removes it. *)
Theorem only_clearCache_removes_entries
    (env : Env) (this : nat) (w : World) (url : string) (s : nat) :
  ImageCache w !! url = Some s →
  (∀ img u forceReload,
     is_Some (ImageCache (_setSrcImg env this img u forceReload w) !! url)) ∧
  (∀ opts, is_Some (ImageCache (init env this opts w) !! url)) ∧
  (∀ u forceReload,
     is_Some (ImageCache (setURL env this u forceReload w) !! url)) ∧
  (∀ A success failCount,
     ImageCache (imageOnLoad A success failCount w) = ImageCache w) ∧
  (∀ err img, ImageCache (_onLoad this err img w) = ImageCache w) ∧
  ImageCache (__clearCache__ w) !! url = None.
Proof.
  intros Hin.
  assert (Hset : ∀ img u forceReload w0,
    ImageCache w0 = ImageCache w →
    is_Some (ImageCache (_setSrcImg env this img u forceReload w0) !! url)).
  { intros img u forceReload w0 Hw0.
    destruct (_setSrcImg_cache env this img u forceReload w0)
      as [-> | (u' & s' & _ & _ & ->)]; rewrite Hw0.
    - by rewrite Hin.
    - destruct (decide (u' = url)) as [->|Hne].
      + by rewrite lookup_insert_eq.
      + rewrite lookup_insert_ne by done. by rewrite Hin. }
  split; [| split; [| split; [| split; [| split]]]].
  - intros img u forceReload. by apply Hset.
  - intros opts. unfold init. by apply Hset.
  - intros u forceReload. unfold setURL. by apply Hset.
  - intros A success failCount. unfold imageOnLoad, fire_surface.
    repeat case_match; try done; by rewrite deliver_cache.
  - intros err img.
    by destruct (_onLoad_frame this err img w) as (_ & _ & _ & -> & _).
  - apply lookup_empty.
Qed.

Lemma only_clearCache_removes_entries_witness :
  is_Some
    (ImageCache (_setSrcImg browser 1 None "b.png" true world_loading)
     !! "a.png").
Proof.
  assert (H : ImageCache world_loading !! "a.png" = Some 0)
    by (vm_compute; reflexivity).
  destruct (only_clearCache_removes_entries browser 1 world_loading "a.png" 0 H)
    as (Hset & _).
  exact (Hset None "b.png" true).
Defined.

(** X11: [_setSrcImg] with an explicit source that is not a canvas and has
    no notifier yet, and with a non-empty url, puts that source in the image
    cache under the url, in place of any earlier entry, so that a later
    Image for the url references the explicit source. *)
Theorem explicit_source_with_url_takes_the_cache_entry
    (env : Env) (this B : nat) (url : string) (w : World) :
  Js.truthy_str url = true →
  s_isCanvas (getSurface B w) = false →
  s___cb (getSurface B w) = None →
  let w' := _setSrcImg env this (Some B) url false w in
  _srcImg (getImage this w') = Some B ∧
  ImageCache w' = <[url := B]> (ImageCache w) ∧
  is_Some (s___cb (getSurface B w')) ∧
  (∀ that, that ≠ this →
     _srcImg (getImage that (_setSrcImg env that None url false w'))
     = Some B).
Proof.
  intros Hurl Hcanvas Hcb. cbv zeta.
  assert (Hcache :
    ImageCache (_setSrcImg env this (Some B) url false w)
    = <[url := B]> (ImageCache w) ∧
    is_Some (s___cb (getSurface B (_setSrcImg env this (Some B) url false w)))).
  { rewrite _setSrcImg_phases by apply found_source_explicit. cbv zeta.
    rewrite lookup_source_explicit.
    set (w0 := updImage this _ w).
    change (release env (Some B) url false w0) with w0.
    destruct (attach_spec this B url w0) as (_ & Hnew & _ & Hk).
    change (getSurface B w0) with (getSurface B w) in *.
    destruct (Hnew Hcanvas Hcb) as [-> _]. rewrite Hurl.
    split; [done | by apply Hk]. }
  destruct Hcache as [Hc Hk].
  split; [apply _setSrcImg_explicit |]. split; [exact Hc |].
  split; [exact Hk |].
  intros that Hne.
  assert (Hhit : ImageCache
                   (updImage that (λ i, set__cb (Callback.reset (_cb i)) i)
                      (_setSrcImg env this (Some B) url false w)) !! url
                 = Some B).
  { change (ImageCache (updImage ?a ?b ?c)) with (ImageCache c).
    by rewrite Hc, lookup_insert_eq. }
  rewrite _setSrcImg_phases by (by eapply found_source_hit). cbv zeta.
  rewrite (lookup_source_hit env url B); [apply attach_srcImg | done | done].
Qed.

Lemma explicit_source_with_url_takes_the_cache_entry_witness :
  ImageCache (_setSrcImg browser 1 (Some 7) "a.png" false
                (set_heap (<[7 := blank_surface]> (heap world_loading))
                   world_loading)) !! "a.png"
  = Some 7.
Proof.
  pose (w := set_heap (<[7 := blank_surface]> (heap world_loading))
               world_loading).
  assert (H1 : s_isCanvas (getSurface 7 w) = false) by (vm_compute; reflexivity).
  assert (H2 : s___cb (getSurface 7 w) = None) by (vm_compute; reflexivity).
  destruct (explicit_source_with_url_takes_the_cache_entry browser 1 7 "a.png"
              w eq_refl H1 H2) as (_ & Hc & _).
  fold w. rewrite Hc. apply lookup_insert_eq.
Defined.

(** ** One Image at a time *)

Lemma request_updImage i this f w :
  (∀ x, request_of (f x) = request_of x) →
  request_of (getImage i (updImage this f w)) = request_of (getImage i w).
Proof.
  intros Hf. destruct (decide (this = i)) as [->|Hne].
  - by rewrite getImage_updImage.
  - by rewrite getImage_updImage_ne.
Qed.

Lemma request_notify i this p w :
  request_of (getImage i (notify this p w)) = request_of (getImage i w).
Proof.
  unfold notify, Callback.fire, Callback.fired.
  destruct (Callback.fired_ (_cb (getImage this w))); [done |].
  rewrite getImage_log. by apply request_updImage.
Qed.

Lemma request__onLoad i this err img w :
  request_of (getImage i (_onLoad this err img w)) = request_of (getImage i w).
Proof.
  unfold _onLoad.
  destruct (superseded img (_srcImg (getImage this w))); [done |].
  destruct err.
  - rewrite request_notify, request_updImage by done. by rewrite getImage_log.
  - destruct (_srcImg (getImage this w)) as [s|];
      [| by apply request_updImage].
    destruct (resolve_size _ _ _) as [[[mw mh] sw] sh].
    rewrite request_notify, request_updImage by done.
    rewrite getImage_updSurface.
    destruct (Js.seq _ 0); rewrite ?getImage_log; by apply request_updImage.
Qed.

Lemma request_deliver i A err subs : ∀ w,
  request_of (getImage i (foldl (λ w0 j, _onLoad j err (Some A) w0) w subs))
  = request_of (getImage i w).
Proof.
  induction subs as [|j subs IH]; intros w; [done |]. cbn.
  by rewrite IH, request__onLoad.
Qed.

Lemma request_attach i this s url w :
  request_of (getImage i (attach this s url w)) = request_of (getImage i w).
Proof.
  unfold attach.
  set (w1 := updImage this (set__srcImg (Some s)) w).
  assert (H1 : request_of (getImage i w1) = request_of (getImage i w))
    by (by apply request_updImage).
  destruct (s_isCanvas (getSurface s w1)); [by rewrite request__onLoad |].
  match goal with
  | |- context [s___cb (getSurface s ?w2)] =>
    set (w3 := w2); assert (H3 : request_of (getImage i w3)
                                 = request_of (getImage i w))
  end.
  { unfold w3. repeat case_match; try exact H1;
      rewrite getImage_log, request_updImage by done; exact H1. }
  destruct (s___cb (getSurface s w3)) as [cb|]; [| exact H3].
  destruct (Callback.run this cb) as [cb' [err|]]; [| exact H3].
  rewrite request__onLoad. exact H3.
Qed.

Lemma request__setSrcImg env i this img url forceReload w :
  request_of (getImage i (_setSrcImg env this img url forceReload w))
  = request_of (getImage i w).
Proof.
  destruct (found_source_cases img url forceReload
              (updImage this (λ i, set__cb (Callback.reset (_cb i)) i) w))
    as [Hfound | Hfound].
  { rewrite _setSrcImg_member by done.
    rewrite getImage_log. by apply request_updImage. }
  rewrite _setSrcImg_phases by done. cbv zeta.
  set (w0 := updImage this _ w).
  assert (H0 : request_of (getImage i w0) = request_of (getImage i w))
    by (by apply request_updImage).
  destruct (lookup_source env img url forceReload w0) as [img' url'].
  destruct (release_images env img' url' forceReload w0) as (Himg & _).
  destruct img' as [s|].
  - rewrite request_attach. unfold getImage. by rewrite Himg.
  - destruct (new_Image_blank (release env None url' forceReload w0))
      as (_ & Himg' & _).
    destruct (new_Image _) as [s w2]. cbn [fst snd] in Himg'.
    rewrite request_attach. unfold getImage. by rewrite Himg', Himg.
Qed.

(** X12: the constructor stores [opts.url || ''] as original url and
    [opts.scale || 1] as scale, so the scale is never zero nor [NaN]; no
    later [setURL], [setSource], completion, event or timer changes the
    original url or the scale of any Image. *)
Theorem original_url_and_scale_are_fixed
    (env : Env) (this i : nat) (w : World) :
  (∀ opts,
     getOriginalURL (getImage this (init env this opts w))
     = Js.or_else_str (o_url opts) "" ∧
     _scale (getImage this (init env this opts w))
     = Js.or_else (o_scale opts) 1 ∧
     Js.truthy (_scale (getImage this (init env this opts w))) = true) ∧
  (∀ url forceReload,
     request_of (getImage i (setURL env this url forceReload w))
     = request_of (getImage i w)) ∧
  (∀ srcImg,
     request_of (getImage i (setSource env this srcImg w))
     = request_of (getImage i w)) ∧
  (∀ err img,
     request_of (getImage i (_onLoad this err img w))
     = request_of (getImage i w)) ∧
  (∀ A success failCount,
     request_of (getImage i (imageOnLoad A success failCount w))
     = request_of (getImage i w)).
Proof.
  split; [| split; [| split; [| split]]].
  - intros opts.
    assert (H : request_of (getImage this (init env this opts w))
                = (Js.or_else_str (o_url opts) "", Js.or_else (o_scale opts) 1)).
    { unfold init. rewrite request__setSrcImg. unfold getImage. cbn.
      by rewrite lookup_total_insert_eq. }
    unfold request_of in H. injection H as Hu Hs.
    unfold getOriginalURL. rewrite Hu, Hs. repeat split.
    unfold Js.or_else. destruct (o_scale opts) as [v|]; [| done].
    by destruct (Js.truthy v) eqn:Hv.
  - intros url forceReload. unfold setURL.
    rewrite request__setSrcImg. by apply request_updImage.
  - intros srcImg. unfold setSource. apply request__setSrcImg.
  - intros err img. apply request__onLoad.
  - intros A success failCount. unfold imageOnLoad, fire_surface.
    repeat case_match; try done; by rewrite request_deliver.
Qed.

(** X13: constructing an Image, [setSource], [setURL], [setBounds],
    [doOnLoad] and the completions of an Image leave every other Image
    (region map, notifier, error flag, source reference) as it was. *)
Theorem operations_touch_one_image
    (env : Env) (this j : nat) (w : World) :
  this ≠ j →
  (∀ opts, getImage j (init env this opts w) = getImage j w) ∧
  (∀ srcImg, getImage j (setSource env this srcImg w) = getImage j w) ∧
  (∀ url forceReload,
     getImage j (setURL env this url forceReload w) = getImage j w) ∧
  (∀ err img, getImage j (_onLoad this err img w) = getImage j w) ∧
  (∀ x y width height mt mr mb ml,
     getImage j (setBounds this x y width height mt mr mb ml w)
     = getImage j w) ∧
  (∀ cb, getImage j (doOnLoad this cb w) = getImage j w).
Proof.
  intros Hne. split; [| split; [| split; [| split; [| split]]]].
  - intros opts. unfold init. rewrite _setSrcImg_other by done.
    unfold getImage. cbn. by rewrite lookup_total_insert_ne.
  - intros srcImg. unfold setSource. by apply _setSrcImg_other.
  - intros url forceReload. unfold setURL. rewrite _setSrcImg_other by done.
    by apply getImage_updImage_ne.
  - intros err img. by destruct (_onLoad_other j this err img w Hne) as [-> _].
  - intros. unfold setBounds. cbv zeta. rewrite getImage_log.
    by apply getImage_updImage_ne.
  - intros cb. unfold doOnLoad.
    destruct (Callback.run cb _) as [c [p|]];
      rewrite ?getImage_log; by apply getImage_updImage_ne.
Qed.

Lemma operations_touch_one_image_witness :
  getImage 0 (setURL browser 1 "b.png" true world_shared)
  = getImage 0 world_shared.
Proof.
  destruct (operations_touch_one_image browser 1 0 world_shared ltac:(lia))
    as (_ & _ & Hurl & _).
  exact (Hurl "b.png" true).
Defined.

(** ** Reading pixels and filtering *)

(** X14: with a document and a region map whose width and height are
    truthy, [getImageData] sizes the scratch canvas to the requested size
    (the size of the map by default), clears it, blits the requested
    region of the source to its origin at that size when the Image has
    completed, and returns the pixels of that rectangle; the margins play
    no part. *)
Theorem getImageData_reads_the_region
    (env : Env) (this : Image) (x y width height : option float) :
  hasDocument env = true →
  Js.truthy (map_width (_map this)) = true →
  Js.truthy (map_height (_map this)) = true →
  let X := Js.or_else x 0 in
  let Y := Js.or_else y 0 in
  let W := Js.or_else width (map_width (_map this)) in
  let H := Js.or_else height (map_height (_map this)) in
  getImageData env this x y width height
  = (OpSize ImgDataCtx W H :: OpClear ImgDataCtx ::
     (if Callback.fired (_cb this)
      then [OpDrawImage ImgDataCtx (SrcImg (_srcImg this)) X Y W H 0 0 W H]
      else []),
     Ok (ctx_getImageData env 0 0 W H)).
Proof.
  intros Hdoc Hw Hh. cbv zeta. unfold getImageData.
  rewrite Hdoc, Hw, Hh. cbn [negb orb].
  unfold render_scratch, render_body.
  destruct (Callback.fired (_cb this)); reflexivity.
Qed.

Lemma getImageData_reads_the_region_witness :
  getImageData browser image_margins (Some 10%float) None (Some 20%float) None
  = ([OpSize ImgDataCtx 20 40; OpClear ImgDataCtx;
      OpDrawImage ImgDataCtx (SrcImg (Some 0)) 10 0 20 40 0 0 20 40],
     Ok (mkImageData 20 40)).
Proof.
  rewrite (getImageData_reads_the_region browser image_margins
             (Some 10%float) None (Some 20%float) None
             eq_refl eq_refl eq_refl).
  reflexivity.
Defined.

(** X15: on the path that is not native, [render] on a completed Image with
    a multiply filter (and no tint) throws what [getImageData] throws,
    ['Not supported'] without a document and ['Not loaded'] when the width
    or the height of the region map is falsy, before any canvas call: the
    [try] around the blit does not cover the filter stage. *)
Theorem multiply_filter_lets_getImageData_throw
    (env : Env) (this : Image) (ctx : Context) (filters : Filters)
    (color : Color) (args : list float) :
  isNative env = false →
  ctx_filters ctx = Some filters →
  LinearAdd filters = None → Tint filters = None →
  Multiply filters = Some color →
  Callback.fired (_cb this) = true →
  (hasDocument env = false →
   render env this ctx args = ([], Throw "Not supported")) ∧
  (hasDocument env = true →
   Js.truthy (map_width (_map this)) && Js.truthy (map_height (_map this))
   = false →
   render env this ctx args = ([], Throw "Not loaded")).
Proof.
  intros Hnat Hf Hla Hti Hmu Hfired.
  assert (Hstage : ∀ e sx sy sw sh,
    getImageData env this (Some sx) (Some sy) (Some sw) (Some sh)
    = ([], Throw e) →
    _applyFilters env this filters sx sy sw sh = ([], Throw e)).
  { intros e sx sy sw sh Hg. unfold _applyFilters.
    rewrite Hla, Hti, Hmu. unfold _renderMultiply. by rewrite Hg. }
  split.
  - intros Hdoc. unfold render, render_body. rewrite Hfired, Hnat, Hf.
    destruct (S (length args) <? 9); cbn -[_applyFilters];
      (rewrite Hstage with (e := "Not supported"); [done |]);
      by apply getImageData_throws.
  - intros Hdoc Hdim. unfold render, render_body. rewrite Hfired, Hnat, Hf.
    destruct (S (length args) <? 9); cbn -[_applyFilters];
      (rewrite Hstage with (e := "Not loaded"); [done |]);
      by apply getImageData_throws.
Qed.

Lemma multiply_filter_lets_getImageData_throw_witness :
  render browser (getImage 0 world_zero_width)
    (mkContext (CallerCtx 0) (Some filters_multiply)) [0; 0; 50; 50]%float
  = ([], Throw "Not loaded").
Proof.
  destruct (multiply_filter_lets_getImageData_throw browser
              (getImage 0 world_zero_width)
              (mkContext (CallerCtx 0) (Some filters_multiply))
              filters_multiply red [0; 0; 50; 50]%float
              eq_refl eq_refl eq_refl eq_refl eq_refl eq_refl)
    as [_ Hloaded].
  apply Hloaded; reflexivity.
Defined.

(** X16: on the path that is not native, filters change only where the
    final blit of a completed Image reads from.  With no descriptor in
    [ctx.filters] the call is the unfiltered one.  With a descriptor, all
    calls before the final blit go to the scratch canvases, and the final
    blit has the size and the destination of the unfiltered one but reads
    the filter canvas from its origin; the only other outcome is a throw
    out of the multiply filter. *)
Theorem filters_substitute_only_the_source
    (env : Env) (this : Image) (ctx : Context) (filters : Filters)
    (args : list float) :
  isNative env = false →
  ctx_filters ctx = Some filters →
  Callback.fired (_cb this) = true →
  ∃ srcX srcY srcW srcH destX destY destW destH,
    render env this (mkContext (ctx_target ctx) None) args
    = ([OpDrawImage (ctx_target ctx) (SrcImg (_srcImg this))
          srcX srcY srcW srcH destX destY destW destH], Ok tt) ∧
    (descriptors filters = 0 →
     render env this ctx args
     = ([OpDrawImage (ctx_target ctx) (SrcImg (_srcImg this))
           srcX srcY srcW srcH destX destY destW destH], Ok tt)) ∧
    (0 < descriptors filters →
     ∃ pre, forallb on_scratch pre = true ∧
       (render env this ctx args
        = (pre ++ [OpDrawImage (ctx_target ctx) SrcFilterCanvas
                     0 0 srcW srcH destX destY destW destH], Ok tt) ∨
        (honored filters = Some MultiplyFilter ∧
         ∃ e, render env this ctx args = (pre, Throw e)))).
Proof.
  intros Hnat Hf Hfired. unfold render, render_body.
  rewrite Hfired, Hnat, Hf. cbn [negb ctx_target ctx_filters].
  cbn [fmap option_fmap option_map].
  destruct (S (length args) <? 9); cbv zeta iota beta.
  all: do 8 eexists; split; [reflexivity |].
  all: match goal with
       | |- context [_applyFilters _ _ _ ?sx ?sy ?sw ?sh] =>
         destruct (_applyFilters_result env this filters sx sy sw sh)
           as [[Hnone ->] | (Hsome & pre & Hpre & [-> | (Hk & e & ->)])]
       end.
  all: split; [intros H0 | intros H1].
  all: try (exfalso; lia).
  all: try reflexivity.
  all: exists pre; (split; [exact Hpre |]).
  all: first [left; reflexivity | right; split; [exact Hk | by exists e]].
Qed.

Lemma failed_load_keeps_map_and_surfaces_witness :
  _map (getImage 0 (_onLoad 0 true (Some 0) world_loading))
  = _map (getImage 0 world_loading).
Proof.
  destruct (failed_load_keeps_map_and_surfaces 0 (Some 0) world_loading
              eq_refl) as (Hmap & _).
  exact Hmap.
Defined.

Lemma unscaled_load_fills_map_only_witness :
  map_width
    (_map (getImage 0 (_onLoad 0 false (Some 0)
                         (platform_set_size 0 100 40 world_loading))))
  = 100%float.
Proof.
  destruct (unscaled_load_fills_map_only 0 0
              (platform_set_size 0 100 40 world_loading) eq_refl eq_refl)
    as (Hmap & _).
  rewrite Hmap. reflexivity.
Defined.

Lemma filters_substitute_only_the_source_witness :
  ∃ pre,
    forallb on_scratch pre = true ∧
    render browser image_margins
      (mkContext (CallerCtx 0) (Some filters_three)) [0; 0; 50; 20]%float
    = (pre ++ [OpDrawImage (CallerCtx 0) SrcFilterCanvas 0 0 80 40 5 0 40 20],
       Ok tt).
Proof.
  destruct (filters_substitute_only_the_source browser image_margins
              (mkContext (CallerCtx 0) (Some filters_three)) filters_three
              [0; 0; 50; 20]%float eq_refl eq_refl eq_refl)
    as (sx & sy & sw & sh & dx & dy & dw & dh & Hplain & _ & Hsome).
  vm_compute in Hplain. injection Hplain as <- <- <- <- <- <- <- <-.
  destruct (Hsome ltac:(vm_compute; lia)) as (pre & Hpre & [Hr | [Hk _]]).
  - exists pre. split; [exact Hpre | exact Hr].
  - vm_compute in Hk. discriminate Hk.
Defined.

(** ** Completions after a later attempt *)










